(** * vfuse/server: the relaying FUSE filesystem of server.go

    A shallow embedding of [vfuse/server/server.go]: the error mapping
    [fuseError], the conversion [pbTime], the correlation registry
    ([nextID], [readFromClient], [forgetRequestLocked]), [sendPacket], and
    the per-operation handlers of [FS] and [file].

    Conventions.
    - [uint64], [uint32], [int64], [int32] are [Z] with the wrap-around of
      the Go arithmetic written out.
    - A Go pointer that may be [nil] is an [option]; dereferencing [None]
      is the run-time panic "nil pointer dereference" ([Fault]).
    - The map [fs.res] is a [gmap Z chan]; a channel made by
      [make(chan proto.Message, 1)] is an address into a heap of one-slot
      buffers.
    - A handler is a finite interaction tree over [sendPacket] and the
      channel receive [<-resc]; [exec] runs it against the registry code and
      a description of the peer. *)

From Stdlib Require Import ZArith List Lia String.
From stdpp Require Import base option list gmap strings.

Local Open Scope Z_scope.

(** ** Machine integers *)

Definition uint64_mod : Z := 18446744073709551616.   (* 2^64 *)
Definition uint64 (z : Z) : Z := z mod uint64_mod.
Definition int32 (z : Z) : Z := (z + 2147483648) mod 4294967296 - 2147483648.

(** ** fuse.Status (go-fuse), the errno values used by server.go *)

Definition Status := Z.
Definition OK : Status := 0.
Definition ENOENT : Status := 2.
Definition EIO : Status := 5.
Definition ENOTDIR : Status := 20.
Definition EROFS : Status := 30.

(** ** The wire messages of package pb

    Only the fields server.go reads or writes are kept. Optional proto2
    fields are pointers in the generated Go code, hence [option]; a getter
    returns the zero value for an absent field. *)

(** Modelled from the spec: the declaration of [pb.Error] is not part of
    the sources; an Error record is "a set of reasons (not-found,
    read-only-violation, not-a-directory)", read through the getters
    [GetNotExist], [GetReadOnly] and [GetNotDir] that [fuseError] calls. *)
Record Error := mkError {
  NotExist : option bool;
  ReadOnly : option bool;
  NotDir : option bool
}.

Definition GetNotExist (e : Error) : bool := default false (NotExist e).
Definition GetReadOnly (e : Error) : bool := default false (ReadOnly e).
Definition GetNotDir (e : Error) : bool := default false (NotDir e).

Record Time := mkTime { Sec : option Z; Nsec : option Z }.

Record Attr := mkAttr { Attr_Size : option Z; Attr_Mode : option Z }.
Definition Attr_GetSize (a : Attr) : Z := default 0 (Attr_Size a).
Definition Attr_GetMode (a : Attr) : Z := default 0 (Attr_Mode a).

Record DirEntry := mkDirEntry { DirEntry_Name : option string; DirEntry_Mode : option Z }.
Definition DirEntry_GetName (d : DirEntry) : string := default EmptyString (DirEntry_Name d).
Definition DirEntry_GetMode (d : DirEntry) : Z := default 0 (DirEntry_Mode d).

(** Modelled from the spec: "every response carries an optional Error
    record plus operation-specific payload"; the payload fields are the ones
    the handlers read ([Attr], [Handle], [Entry], [Target], [Data]). *)
Record AttrResponse := mkAttrResponse {
  AttrResponse_Err : option Error; AttrResponse_Attr : option Attr }.
Record OpenResponse := mkOpenResponse {
  OpenResponse_Err : option Error; OpenResponse_Handle : option Z }.
Record ReaddirResponse := mkReaddirResponse {
  ReaddirResponse_Err : option Error; ReaddirResponse_Entry : list DirEntry }.
Record ReadlinkResponse := mkReadlinkResponse {
  ReadlinkResponse_Err : option Error; ReadlinkResponse_Target : option string }.
Record ReadResponse := mkReadResponse {
  ReadResponse_Err : option Error; ReadResponse_Data : list Byte.byte }.
Record ChmodResponse := mkChmodResponse { ChmodResponse_Err : option Error }.
Record MkdirResponse := mkMkdirResponse { MkdirResponse_Err : option Error }.
Record RmdirResponse := mkRmdirResponse { RmdirResponse_Err : option Error }.
Record RenameResponse := mkRenameResponse { RenameResponse_Err : option Error }.
Record SymlinkResponse := mkSymlinkResponse { SymlinkResponse_Err : option Error }.
Record UtimeResponse := mkUtimeResponse { UtimeResponse_Err : option Error }.
Record MknodResponse := mkMknodResponse { MknodResponse_Err : option Error }.
Record UnlinkResponse := mkUnlinkResponse { UnlinkResponse_Err : option Error }.
Record TruncateResponse := mkTruncateResponse { TruncateResponse_Err : option Error }.
Record CloseResponse := mkCloseResponse { CloseResponse_Err : option Error }.

Definition OpenResponse_GetHandle (r : OpenResponse) : Z := default 0 (OpenResponse_Handle r).
Definition ReadlinkResponse_GetTarget (r : ReadlinkResponse) : string :=
  default EmptyString (ReadlinkResponse_Target r).

(** [proto.Message]: the closed set of message kinds. A request is built
    with the fields the handler sets; a response is a (non-nil) pointer to
    its record. *)
Inductive Message : Type :=
| AttrRequest (Name : option string)
| OpenRequest (Name : option string) (Flags : option Z)
| CloseRequest (Handle : option Z)
| ReadRequest (Handle : option Z) (Offset : option Z) (Size : option Z)
| ReaddirRequest (Name : option string)
| ReadlinkRequest (Name : option string)
| RenameRequest (Name : option string) (Target : option string)
| MkdirRequest (Name : option string) (Mode : option Z)
| RmdirRequest (Name : option string)
| SymlinkRequest (Value : option string) (Name : option string)
| UnlinkRequest (Name : option string)
| TruncateRequest (Name : option string) (Handle : option Z) (Size : option Z)
| ChmodRequest (Name : option string) (Mode : option Z)
| UtimeRequest (Name : option string) (Atime : option Time) (Mtime : option Time)
| MknodRequest (Name : option string) (Mode : option Z) (Dev : option Z)
| MsgAttrResponse (r : AttrResponse)
| MsgOpenResponse (r : OpenResponse)
| MsgCloseResponse (r : CloseResponse)
| MsgReadResponse (r : ReadResponse)
| MsgReaddirResponse (r : ReaddirResponse)
| MsgReadlinkResponse (r : ReadlinkResponse)
| MsgRenameResponse (r : RenameResponse)
| MsgMkdirResponse (r : MkdirResponse)
| MsgRmdirResponse (r : RmdirResponse)
| MsgSymlinkResponse (r : SymlinkResponse)
| MsgUnlinkResponse (r : UnlinkResponse)
| MsgTruncateResponse (r : TruncateResponse)
| MsgChmodResponse (r : ChmodResponse)
| MsgUtimeResponse (r : UtimeResponse)
| MsgMknodResponse (r : MknodResponse).

(** The type assertions [res, ok := m.(pointer to pb.XResponse)]: [Some r] when the
    dynamic type matches ([ok] true), [None] otherwise ([res] is then the
    nil pointer). *)
Definition asAttrResponse (m : Message) : option AttrResponse :=
  match m with MsgAttrResponse r => Some r | _ => None end.
Definition asOpenResponse (m : Message) : option OpenResponse :=
  match m with MsgOpenResponse r => Some r | _ => None end.
Definition asCloseResponse (m : Message) : option CloseResponse :=
  match m with MsgCloseResponse r => Some r | _ => None end.
Definition asReadResponse (m : Message) : option ReadResponse :=
  match m with MsgReadResponse r => Some r | _ => None end.
Definition asReaddirResponse (m : Message) : option ReaddirResponse :=
  match m with MsgReaddirResponse r => Some r | _ => None end.
Definition asReadlinkResponse (m : Message) : option ReadlinkResponse :=
  match m with MsgReadlinkResponse r => Some r | _ => None end.
Definition asRenameResponse (m : Message) : option RenameResponse :=
  match m with MsgRenameResponse r => Some r | _ => None end.
Definition asMkdirResponse (m : Message) : option MkdirResponse :=
  match m with MsgMkdirResponse r => Some r | _ => None end.
Definition asRmdirResponse (m : Message) : option RmdirResponse :=
  match m with MsgRmdirResponse r => Some r | _ => None end.
Definition asSymlinkResponse (m : Message) : option SymlinkResponse :=
  match m with MsgSymlinkResponse r => Some r | _ => None end.
Definition asUnlinkResponse (m : Message) : option UnlinkResponse :=
  match m with MsgUnlinkResponse r => Some r | _ => None end.
Definition asTruncateResponse (m : Message) : option TruncateResponse :=
  match m with MsgTruncateResponse r => Some r | _ => None end.
Definition asChmodResponse (m : Message) : option ChmodResponse :=
  match m with MsgChmodResponse r => Some r | _ => None end.
Definition asUtimeResponse (m : Message) : option UtimeResponse :=
  match m with MsgUtimeResponse r => Some r | _ => None end.
Definition asMknodResponse (m : Message) : option MknodResponse :=
  match m with MsgMknodResponse r => Some r | _ => None end.

(** ** fuseError (server.go, lines 31-46) *)

Definition fuseError (err : option Error) : Status :=
  match err with
  | None => OK
  | Some e =>
      if GetNotExist e then ENOENT
      else if GetReadOnly e then EROFS
      else if GetNotDir e then ENOTDIR
      else EIO
  end.

(** ** The Go-side values handed back to go-fuse *)

(** [fuse.Attr]: the fields server.go sets; all others keep their zero value. *)
Record fuse_Attr := mkFuseAttr {
  Size : Z; Mode : Z; Nlink : Z; Blksize : Z; Blocks : Z }.

Record fuse_DirEntry := mkFuseDirEntry { Name : string; EntryMode : Z }.

(** [fuse.ReadResult] as built by [fuse.ReadResultData]. *)
Inductive ReadResult := ReadResultData (data : list Byte.byte).

Definition Bytes (r : ReadResult) : list Byte.byte :=
  match r with ReadResultData data => data end.

(** [time.Time], seen through the two methods [pbTime] calls. *)
Record GoTime := mkGoTime { Unix : Z; Nanosecond : Z }.

(** The struct [file] (without the back pointer to the one [FS]). *)
Record file := mkFile { handle : Z; origName : string; origFlags : Z }.

(** ** Handlers as interaction trees

    [chan] is the address of a [chan proto.Message] of capacity one.
    [SendPacket body k] is the call [fs.sendPacket(body)], whose result is
    the receive channel ([Some resc]) or an error ([None]); [Recv c k] is the
    blocking receive [<-c]; [Fault] is a run-time panic. *)

Abbreviation chan := nat (only parsing).

Inductive Relay (A : Type) : Type :=
| Ret (a : A)
| Fault
| SendPacket (body : Message) (k : option chan → Relay A)
| Recv (c : chan) (k : Message → Relay A).

Arguments Ret {A} a.
Arguments Fault {A}.
Arguments SendPacket {A} body k.
Arguments Recv {A} c k.

Fixpoint Relay_bind {A B} (f : A → Relay B) (p : Relay A) : Relay B :=
  match p with
  | Ret a => f a
  | Fault => Fault
  | SendPacket body k => SendPacket body (λ r, Relay_bind f (k r))
  | Recv c k => Recv c (λ m, Relay_bind f (k m))
  end.

#[global] Instance Relay_ret : MRet Relay := @Ret.
#[global] Instance Relay_mbind : MBind Relay := @Relay_bind.

Definition sendPacket (body : Message) : Relay (option chan) := SendPacket body Ret.
Definition recv (c : chan) : Relay Message := Recv c Ret.

(** Field access through a pointer: a nil pointer faults. *)
Definition deref {A} (p : option A) : Relay A :=
  match p with Some a => Ret a | None => Fault end.

(** ** pbTime (lines 48-52): [t.Unix()] and [t.Nanosecond()] dereference [t]. *)

Definition pbTime (t : option GoTime) : Relay Time :=
  t ← deref t;
  let sec := Unix t in
  let nsec := int32 (Nanosecond t) in
  mret {| Sec := Some sec; Nsec := Some nsec |}.

(** ** The handlers of FS (lines 168-441) *)

Definition Chmod (name : string) (mode : Z) : Relay Status :=
  resc ← sendPacket (ChmodRequest (Some name) (Some mode));
  match resc with
  | None => mret EIO
  | Some resc =>
      m ← recv resc;
      match asChmodResponse m with
      | None => mret EIO
      | Some res => mret (fuseError (ChmodResponse_Err res))
      end
  end.

Definition S_IFDIR : Z := 16384.          (* 0x4000 *)
Definition rootAttr : fuse_Attr :=
  {| Size := 0; Mode := Z.lor 493 S_IFDIR (* 0755 | S_IFDIR *);
     Nlink := 1; Blksize := 1024; Blocks := 1 |}.

Definition GetAttr (name : string) : Relay (option fuse_Attr * Status) :=
  if decide (name = EmptyString) then mret (Some rootAttr, OK)
  else
    resc ← sendPacket (AttrRequest (Some name));
    match resc with
    | None => mret (None, EIO)
    | Some resc =>
        resi ← recv resc;
        match asAttrResponse resi with
        | None => mret (None, EIO)
        | Some res =>
            match AttrResponse_Err res with
            | Some _ => mret (None, fuseError (AttrResponse_Err res))
            | None =>
                match AttrResponse_Attr res with
                | None => mret (None, EIO)
                | Some attr =>
                    mret (Some {| Size := Attr_GetSize attr;
                                  Mode := Attr_GetMode attr;
                                  Nlink := 1;
                                  Blksize := 1024;
                                  Blocks := Attr_GetSize attr / 1024 |}, OK)
                end
            end
        end
    end.

(** In Mkdir the branch [if !ok] only logs and falls through to
    [res.Err], with [res] the nil pointer. *)
Definition Mkdir (name : string) (mode : Z) : Relay Status :=
  resc ← sendPacket (MkdirRequest (Some name) (Some mode));
  match resc with
  | None => mret EIO
  | Some resc =>
      m ← recv resc;
      let res := asMkdirResponse m in
      res ← deref res;
      mret (fuseError (MkdirResponse_Err res))
  end.

Definition Open (name : string) (flags : Z) : Relay (option file * Status) :=
  resc ← sendPacket (OpenRequest (Some name) (Some flags));
  match resc with
  | None => mret (None, EIO)
  | Some resc =>
      m ← recv resc;
      match asOpenResponse m with
      | None => mret (None, EIO)
      | Some res =>
          match OpenResponse_Err res with
          | Some _ => mret (None, fuseError (OpenResponse_Err res))
          | None =>
              let f := {| handle := OpenResponse_GetHandle res;
                          origName := name;
                          origFlags := flags |} in
              if decide (handle f = 0) then mret (None, EIO)
              else mret (Some f, OK)
          end
      end
  end.

Definition OpenDir (name : string) : Relay (list fuse_DirEntry * Status) :=
  resc ← sendPacket (ReaddirRequest (Some name));
  match resc with
  | None => mret ([], EIO)
  | Some resc =>
      resi ← recv resc;
      match asReaddirResponse resi with
      | None => mret ([], EIO)
      | Some res =>
          let stream :=
            (λ ent, {| Name := DirEntry_GetName ent; EntryMode := DirEntry_GetMode ent |})
              <$> ReaddirResponse_Entry res in
          mret (stream, fuseError (ReaddirResponse_Err res))
      end
  end.

Definition Readlink (name : string) : Relay (string * Status) :=
  resc ← sendPacket (ReadlinkRequest (Some name));
  match resc with
  | None => mret (EmptyString, EIO)
  | Some resc =>
      m ← recv resc;
      match asReadlinkResponse m with
      | None => mret (EmptyString, EIO)
      | Some res =>
          match ReadlinkResponse_Err res with
          | Some _ => mret (EmptyString, fuseError (ReadlinkResponse_Err res))
          | None => mret (ReadlinkResponse_GetTarget res, OK)
          end
      end
  end.

Definition Rename (name target : string) : Relay Status :=
  resc ← sendPacket (RenameRequest (Some name) (Some target));
  match resc with
  | None => mret EIO
  | Some resc =>
      m ← recv resc;
      match asRenameResponse m with
      | None => mret EIO
      | Some res => mret (fuseError (RenameResponse_Err res))
      end
  end.

(** Rmdir has the same fall-through as Mkdir. *)
Definition Rmdir (name : string) : Relay Status :=
  resc ← sendPacket (RmdirRequest (Some name));
  match resc with
  | None => mret EIO
  | Some resc =>
      m ← recv resc;
      let res := asRmdirResponse m in
      res ← deref res;
      mret (fuseError (RmdirResponse_Err res))
  end.

Definition Symlink (value linkName : string) : Relay Status :=
  resc ← sendPacket (SymlinkRequest (Some value) (Some linkName));
  match resc with
  | None => mret EIO
  | Some resc =>
      m ← recv resc;
      match asSymlinkResponse m with
      | None => mret EIO
      | Some res => mret (fuseError (SymlinkResponse_Err res))
      end
  end.

(** The composite literal evaluates [pbTime(atime)] and [pbTime(mtime)]
    before [sendPacket] is called. *)
Definition Utimens (name : string) (atime mtime : option GoTime) : Relay Status :=
  a ← pbTime atime;
  mt ← pbTime mtime;
  resc ← sendPacket (UtimeRequest (Some name) (Some a) (Some mt));
  match resc with
  | None => mret EIO
  | Some resc =>
      m ← recv resc;
      match asUtimeResponse m with
      | None => mret EIO
      | Some res => mret (fuseError (UtimeResponse_Err res))
      end
  end.

Definition Mknod (name : string) (mode dev : Z) : Relay Status :=
  resc ← sendPacket (MknodRequest (Some name) (Some mode) (Some dev));
  match resc with
  | None => mret EIO
  | Some resc =>
      m ← recv resc;
      match asMknodResponse m with
      | None => mret EIO
      | Some res => mret (fuseError (MknodResponse_Err res))
      end
  end.

Definition Unlink (name : string) : Relay Status :=
  resc ← sendPacket (UnlinkRequest (Some name));
  match resc with
  | None => mret EIO
  | Some resc =>
      m ← recv resc;
      match asUnlinkResponse m with
      | None => mret EIO
      | Some res => mret (fuseError (UnlinkResponse_Err res))
      end
  end.

Definition Truncate (name : string) (size : Z) : Relay Status :=
  resc ← sendPacket (TruncateRequest (Some name) None (Some size));
  match resc with
  | None => mret EIO
  | Some resc =>
      m ← recv resc;
      match asTruncateResponse m with
      | None => mret EIO
      | Some res => mret (fuseError (TruncateResponse_Err res))
      end
  end.

(** ** The methods of file (lines 471-519) *)

Definition file_Flush (f : file) : Relay Status :=
  resc ← sendPacket (CloseRequest (Some (handle f)));
  match resc with
  | None => mret EIO
  | Some resc =>
      m ← recv resc;
      match asCloseResponse m with
      | None => mret EIO
      | Some res => mret (fuseError (CloseResponse_Err res))
      end
  end.

Definition file_Read (f : file) (dest : list Byte.byte) (off : Z)
  : Relay (option ReadResult * Status) :=
  resc ← sendPacket (ReadRequest (Some (handle f))
                                 (Some (uint64 off))
                                 (Some (uint64 (Z.of_nat (length dest)))));
  match resc with
  | None => mret (None, EIO)
  | Some resc =>
      m ← recv resc;
      match asReadResponse m with
      | None => mret (None, EIO)
      | Some res => mret (Some (ReadResultData (ReadResponse_Data res)), OK)
      end
  end.

Definition file_Truncate (f : file) (size : Z) : Relay Status :=
  resc ← sendPacket (TruncateRequest None (Some (handle f)) (Some size));
  match resc with
  | None => mret EIO
  | Some resc =>
      m ← recv resc;
      match asTruncateResponse m with
      | None => mret EIO
      | Some res => mret (fuseError (TruncateResponse_Err res))
      end
  end.

(** ** The filesystem instance, its channels and its read loop *)

(** [vfuse.Packet] with its [vfuse.Header]. *)
Record vfuse_Header := mkHeader { ID : Z }.
Record Packet := mkPacket { Header : vfuse_Header; Body : Message }.

(** The struct [FS] (lines 90-100): [clientOnce] records whether the
    [sync.Once] has fired; [nextid] and [res] are the fields guarded by
    [mu]. *)
Record FS := mkFS {
  clientOnce : bool;
  nextid : Z;
  res : gmap Z chan
}.

(** The goroutine started by [go fs.readFromClient()]: not started, blocked
    in [ReadPacket], between the unlock and the send [resc <- p.Body], or
    returned. *)
Inductive Loop :=
| NotStarted
| Reading
| Sending (id : Z) (resc : chan) (body : Message)
| Exited.

(** What an observer of one instance sees, newest first in [trace]. *)
Inductive Obs :=
| Issued (id : Z) (c : chan)                      (* nextID returned (id, c) *)
| Delivered (id : Z) (c : chan) (body : Message)  (* resc <- p.Body completed *)
| Bogus (id : Z)                                  (* "bogus packet"; the loop returns *)
| ReadError.                                      (* ReadPacket failed; the loop returns *)

(** The whole instance: the [FS] fields, the heap of channels made so far
    (the buffer of channel [c] is [heap !! c], [None] when empty), the read
    loop, the packets written to the connection, and the history. *)
Record Sys := mkSys {
  fs : FS;
  heap : list (option Message);
  loop : Loop;
  wire : list Packet;
  trace : list Obs
}.

Definition newFS : FS := {| clientOnce := false; nextid := 0; res := ∅ |}.
Definition newSys : Sys :=
  {| fs := newFS; heap := []; loop := NotStarted; wire := []; trace := [] |}.

(** [make(chan proto.Message, 1)]: a fresh address with an empty buffer. *)
Definition make_chan (σ : Sys) : chan * Sys :=
  (length (heap σ),
   {| fs := fs σ; heap := heap σ ++ [None]; loop := loop σ;
      wire := wire σ; trace := trace σ |}).

(** nextID (lines 132-140), one critical section of [fs.mu]. *)
Definition nextID (σ : Sys) : Z * chan * Sys :=
  let '(c, σ) := make_chan σ in
  let id := nextid (fs σ) in
  let fs' := {| clientOnce := clientOnce (fs σ);
                nextid := uint64 (nextid (fs σ) + 1);
                res := <[id := c]> (res (fs σ)) |} in
  (id, c,
   {| fs := fs'; heap := heap σ; loop := loop σ; wire := wire σ;
      trace := Issued id c :: trace σ |}).

(** forgetRequestLocked (lines 164-166). *)
Definition forgetRequestLocked (id : Z) (f : FS) : FS :=
  {| clientOnce := clientOnce f; nextid := nextid f; res := delete id (res f) |}.

(** initClient (lines 110-116) under [clientOnce.Do]: the connection is
    obtained and the read loop is started, once. *)
Definition initClient (σ : Sys) : Sys :=
  {| fs := fs σ; heap := heap σ; loop := Reading; wire := wire σ; trace := trace σ |}.

Definition clientOnce_Do (f : Sys → Sys) (σ : Sys) : Sys :=
  if clientOnce (fs σ) then σ
  else
    f {| fs := {| clientOnce := true; nextid := nextid (fs σ); res := res (fs σ) |};
         heap := heap σ; loop := loop σ; wire := wire σ; trace := trace σ |}.

(** One iteration of readFromClient (lines 142-162) is two atomic parts.
    [dispatch r] is lines 144-159: the result [r] of [ReadPacket] ([None]
    for an error) and the critical section that looks the id up and forgets
    it. [send] is line 160, the send on the one-slot channel, which blocks
    while the slot is full. *)
Definition dispatch (r : option Packet) (σ : Sys) : Sys :=
  match loop σ with
  | Reading =>
      match r with
      | None =>
          {| fs := fs σ; heap := heap σ; loop := Exited; wire := wire σ;
             trace := ReadError :: trace σ |}
      | Some p =>
          let id := ID (Header p) in
          match res (fs σ) !! id with
          | Some resc =>
              {| fs := forgetRequestLocked id (fs σ); heap := heap σ;
                 loop := Sending id resc (Body p); wire := wire σ;
                 trace := trace σ |}
          | None =>
              {| fs := fs σ; heap := heap σ; loop := Exited; wire := wire σ;
                 trace := Bogus id :: trace σ |}
          end
      end
  | _ => σ
  end.

Definition send (σ : Sys) : Sys :=
  match loop σ with
  | Sending id resc body =>
      match heap σ !! resc with
      | Some None =>
          {| fs := fs σ; heap := <[resc := Some body]> (heap σ); loop := Reading;
             wire := wire σ; trace := Delivered id resc body :: trace σ |}
      | _ => σ
      end
  | _ => σ
  end.

(** The loop run on the successive results of [ReadPacket]. *)
Definition readFromClient (inbound : list (option Packet)) (σ : Sys) : Sys :=
  foldl (λ σ r, send (dispatch r σ)) σ inbound.

(** The receive [<-c] of a handler: it takes the buffered message, and is
    not enabled while the buffer is empty. *)
Definition chan_recv (c : chan) (σ : Sys) : option (Message * Sys) :=
  match heap σ !! c with
  | Some (Some m) =>
      Some (m, {| fs := fs σ; heap := <[c := None]> (heap σ); loop := loop σ;
                  wire := wire σ; trace := trace σ |})
  | _ => None
  end.

(** ** Interleavings

    The atomic actions of all goroutines of one instance, in the order in
    which they take effect. *)
Inductive Event :=
| EvInit                         (* some handler: fs.clientOnce.Do(fs.initClient) *)
| EvNextID                       (* some handler: fs.nextID() *)
| EvDispatch (r : option Packet) (* read loop: ReadPacket and the critical section *)
| EvSend                         (* read loop: resc <- p.Body *)
| EvRecv (c : chan).             (* some handler: <-c *)

Definition step (σ : Sys) (e : Event) : Sys :=
  match e with
  | EvInit => clientOnce_Do initClient σ
  | EvNextID => (nextID σ).2
  | EvDispatch r => dispatch r σ
  | EvSend => send σ
  | EvRecv c => match chan_recv c σ with Some (_, σ') => σ' | None => σ end
  end.

Definition run (σ : Sys) (evs : list Event) : Sys := foldl step σ evs.

(** Projections of a history. *)
Definition issued (t : list Obs) : list (Z * chan) :=
  omap (λ o, match o with Issued id c => Some (id, c) | _ => None end) t.
Definition delivered (t : list Obs) : list (Z * chan * Message) :=
  omap (λ o, match o with Delivered id c b => Some (id, c, b) | _ => None end) t.
Definition delivered_chans (t : list Obs) : list chan :=
  (λ d, d.1.2) <$> delivered t.

(** ** Running one handler

    The peer: whether a write of a packet succeeds, and the results of
    [ReadPacket] that the written packet provokes. [exec] runs a handler
    alone on the instance: [sendPacket] is lines 118-130, the read loop
    consumes what the peer answers, and a receive on an empty channel with
    nothing left to read never returns ([Hung]). *)
Record Peer := mkPeer {
  write_ok : Packet → bool;
  answer : Packet → list (option Packet)
}.

Inductive Outcome (A : Type) :=
| Returned (a : A)
| Panicked
| Hung.
Arguments Returned {A} a.
Arguments Panicked {A}.
Arguments Hung {A}.

(** Modelled from the spec: package vfuse ([Client.WritePacket],
    [Client.ReadPacket]) is not part of the sources; "writePacket(id, body)
    serializes the pair and writes it", "readPacket() returns the decoded
    (id, body) pair or a transport error". A successful write is recorded
    in [wire]; failures and read results come from the [Peer]. *)
Definition WritePacket (p : Packet) (σ : Sys) : Sys :=
  {| fs := fs σ; heap := heap σ; loop := loop σ; wire := wire σ ++ [p]; trace := trace σ |}.

Fixpoint exec {A} (w : Peer) (p : Relay A) (σ : Sys) : Outcome A * Sys :=
  match p with
  | Ret a => (Returned a, σ)
  | Fault => (Panicked, σ)
  | SendPacket body k =>
      let σ := clientOnce_Do initClient σ in
      let '(id, resc, σ) := nextID σ in
      let pkt := {| Header := {| ID := id |}; Body := body |} in
      if write_ok w pkt
      then exec w (k (Some resc)) (readFromClient (answer w pkt) (WritePacket pkt σ))
      else exec w (k None) σ
  | Recv c k =>
      match chan_recv c σ with
      | Some (m, σ) => exec w (k m) σ
      | None => (Hung, σ)
      end
  end.

(** A peer that accepts every write and answers each request [(id, body)]
    with the single packet [(id, reply body)]. *)
Definition replying (reply : Message → Message) : Peer :=
  {| write_ok := λ _, true;
     answer := λ p, [Some {| Header := Header p; Body := reply (Body p) |}] |}.

(** ** Auxiliary definitions for the statements *)

(** The instance can serve a call: either the client has not been
    initialised yet (the call will start the read loop), or the read loop is
    blocked in [ReadPacket]. *)
Definition ready (σ : Sys) : bool :=
  if clientOnce (fs σ) then match loop σ with Reading => true | _ => false end else true.

(** The instance after [sendPacket body] against [replying reply], the
    answer having gone through the read loop. *)
Definition served (reply : Message → Message) (body : Message) (σ : Sys) : Sys :=
  let σ := clientOnce_Do initClient σ in
  let '(id, resc, σ) := nextID σ in
  let pkt := {| Header := {| ID := id |}; Body := body |} in
  readFromClient (answer (replying reply) pkt) (WritePacket pkt σ).

Definition allocated (σ : Sys) (c : nat) : Prop := (c < length (heap σ))%nat.

(** The invariant of the registry: a registered channel exists, has not
    been delivered to and was issued under its key; no channel is
    registered twice; the channel the loop is about to send on is no longer
    registered; a full slot has been delivered to; deliveries are to
    distinct channels, each issued under the delivered id. *)
Record inv (σ : Sys) : Prop := mkInv {
  inv_once : loop σ ≠ NotStarted → clientOnce (fs σ) = true;
  inv_res : ∀ id c, res (fs σ) !! id = Some c →
      allocated σ c ∧ (c ∉ delivered_chans (trace σ)) ∧ ((id, c) ∈ issued (trace σ));
  inv_inj : ∀ i j c, res (fs σ) !! i = Some c → res (fs σ) !! j = Some c → i = j;
  inv_sending : ∀ id c b, loop σ = Sending id c b →
      allocated σ c ∧ (c ∉ delivered_chans (trace σ))
      ∧ ((id, c) ∈ issued (trace σ)) ∧ ∀ i, res (fs σ) !! i ≠ Some c;
  inv_full : ∀ c m, heap σ !! c = Some (Some m) → c ∈ delivered_chans (trace σ);
  inv_nodup : NoDup (delivered_chans (trace σ));
  inv_deliv : ∀ id c b, (id, c, b) ∈ delivered (trace σ) → (id, c) ∈ issued (trace σ);
  inv_issued : ∀ id c, (id, c) ∈ issued (trace σ) → allocated σ c
}.

(** The number of calls of nextID in an interleaving. *)
Definition is_NextID (e : Event) : bool :=
  match e with EvNextID => true | _ => false end.

Definition calls (evs : list Event) : nat := length (List.filter is_NextID evs).

(** The id returned by call number [i] (counting from 0) on a new instance,
    and the invariant that ties [nextid], the heap and the history to the
    number of calls. *)
Definition nth_id (i : nat) : Z := uint64 (Z.of_nat i).

Record counted (σ : Sys) : Prop := mkCounted {
  counted_nextid : nextid (fs σ) = nth_id (length (issued (trace σ)));
  counted_heap : length (heap σ) = length (issued (trace σ));
  counted_issued : issued (trace σ)
     = reverse ((λ i, (nth_id i, i)) <$> seq 0 (length (issued (trace σ))))
}.

(** ** StatFs (lines 443-455)

    [fuse.StatfsOut]: the fields StatFs sets; the untyped constants [1e6] and
    [1e3] are exact as [uint64]. *)
Record fuse_StatfsOut := mkStatfsOut {
  Statfs_Bsize : Z; Statfs_Blocks : Z; Statfs_Bfree : Z; Statfs_Bavail : Z;
  Statfs_Files : Z; Statfs_Ffree : Z }.

Definition StatFs (name : string) : Relay fuse_StatfsOut :=
  let blocks := 1000000 in
  mret {| Statfs_Bsize := 1024;
          Statfs_Blocks := blocks;
          Statfs_Bfree := blocks / 2;
          Statfs_Bavail := blocks / 2;
          Statfs_Files := 1000;
          Statfs_Ffree := 1000 - 2 |}.

(** ** The call surface

    The operations go-fuse can invoke on the instance and on an open file,
    with their arguments, and the results they hand back. *)
Inductive Call :=
| CallChmod (name : string) (mode : Z)
| CallGetAttr (name : string)
| CallMkdir (name : string) (mode : Z)
| CallOpen (name : string) (flags : Z)
| CallOpenDir (name : string)
| CallReadlink (name : string)
| CallRename (name target : string)
| CallRmdir (name : string)
| CallSymlink (value linkName : string)
| CallUtimens (name : string) (atime mtime : option GoTime)
| CallMknod (name : string) (mode dev : Z)
| CallUnlink (name : string)
| CallTruncate (name : string) (size : Z)
| CallFlush (f : file)
| CallRead (f : file) (dest : list Byte.byte) (off : Z)
| CallFileTruncate (f : file) (size : Z).

Inductive Result :=
| StatusResult (code : Status)
| AttrResult (attr : option fuse_Attr) (code : Status)
| FileResult (f : option file) (code : Status)
| DirResult (stream : list fuse_DirEntry) (code : Status)
| LinkResult (target : string) (code : Status)
| DataResult (r : option ReadResult) (code : Status).

Definition handle_call (c : Call) : Relay Result :=
  match c with
  | CallChmod name mode => s ← Chmod name mode; mret (StatusResult s)
  | CallGetAttr name => r ← GetAttr name; mret (AttrResult r.1 r.2)
  | CallMkdir name mode => s ← Mkdir name mode; mret (StatusResult s)
  | CallOpen name flags => r ← Open name flags; mret (FileResult r.1 r.2)
  | CallOpenDir name => r ← OpenDir name; mret (DirResult r.1 r.2)
  | CallReadlink name => r ← Readlink name; mret (LinkResult r.1 r.2)
  | CallRename name target => s ← Rename name target; mret (StatusResult s)
  | CallRmdir name => s ← Rmdir name; mret (StatusResult s)
  | CallSymlink value linkName => s ← Symlink value linkName; mret (StatusResult s)
  | CallUtimens name atime mtime => s ← Utimens name atime mtime; mret (StatusResult s)
  | CallMknod name mode dev => s ← Mknod name mode dev; mret (StatusResult s)
  | CallUnlink name => s ← Unlink name; mret (StatusResult s)
  | CallTruncate name size => s ← Truncate name size; mret (StatusResult s)
  | CallFlush f => s ← file_Flush f; mret (StatusResult s)
  | CallRead f dest off => r ← file_Read f dest off; mret (DataResult r.1 r.2)
  | CallFileTruncate f size => s ← file_Truncate f size; mret (StatusResult s)
  end.

Definition code_of (r : Result) : Status :=
  match r with
  | StatusResult code | AttrResult _ code | FileResult _ code
  | DirResult _ code | LinkResult _ code | DataResult _ code => code
  end.

(** The result carries nothing beside its status: a nil attribute, file or
    read result, an empty stream, the empty string. *)
Definition no_payload (r : Result) : bool :=
  match r with
  | StatusResult _ => true
  | AttrResult attr _ => bool_decide (attr = None)
  | FileResult f _ => bool_decide (f = None)
  | DirResult stream _ => bool_decide (length stream = 0%nat)
  | LinkResult target _ => bool_decide (target = EmptyString)
  | DataResult r _ => match r with None => true | Some _ => false end
  end.

(** The request a call relays, as the handlers build it; [None] for the
    calls that reach no [sendPacket]: GetAttr on the root, and Utimens with
    a nil time. *)
Definition request_of (c : Call) : option Message :=
  match c with
  | CallChmod name mode => Some (ChmodRequest (Some name) (Some mode))
  | CallGetAttr name =>
      if decide (name = EmptyString) then None else Some (AttrRequest (Some name))
  | CallMkdir name mode => Some (MkdirRequest (Some name) (Some mode))
  | CallOpen name flags => Some (OpenRequest (Some name) (Some flags))
  | CallOpenDir name => Some (ReaddirRequest (Some name))
  | CallReadlink name => Some (ReadlinkRequest (Some name))
  | CallRename name target => Some (RenameRequest (Some name) (Some target))
  | CallRmdir name => Some (RmdirRequest (Some name))
  | CallSymlink value linkName => Some (SymlinkRequest (Some value) (Some linkName))
  | CallUtimens name (Some atime) (Some mtime) =>
      Some (UtimeRequest (Some name)
              (Some {| Sec := Some (Unix atime); Nsec := Some (int32 (Nanosecond atime)) |})
              (Some {| Sec := Some (Unix mtime); Nsec := Some (int32 (Nanosecond mtime)) |}))
  | CallUtimens _ _ _ => None
  | CallMknod name mode dev => Some (MknodRequest (Some name) (Some mode) (Some dev))
  | CallUnlink name => Some (UnlinkRequest (Some name))
  | CallTruncate name size => Some (TruncateRequest (Some name) None (Some size))
  | CallFlush f => Some (CloseRequest (Some (handle f)))
  | CallRead f dest off =>
      Some (ReadRequest (Some (handle f)) (Some (uint64 off))
              (Some (uint64 (Z.of_nat (length dest)))))
  | CallFileTruncate f size => Some (TruncateRequest None (Some (handle f)) (Some size))
  end.

(** The Error record of a response whose only content is that record, and
    the response kind each status-only operation expects. *)
Definition Err_of (m : Message) : option (option Error) :=
  match m with
  | MsgChmodResponse r => Some (ChmodResponse_Err r)
  | MsgMkdirResponse r => Some (MkdirResponse_Err r)
  | MsgRmdirResponse r => Some (RmdirResponse_Err r)
  | MsgRenameResponse r => Some (RenameResponse_Err r)
  | MsgSymlinkResponse r => Some (SymlinkResponse_Err r)
  | MsgUtimeResponse r => Some (UtimeResponse_Err r)
  | MsgMknodResponse r => Some (MknodResponse_Err r)
  | MsgUnlinkResponse r => Some (UnlinkResponse_Err r)
  | MsgTruncateResponse r => Some (TruncateResponse_Err r)
  | MsgCloseResponse r => Some (CloseResponse_Err r)
  | _ => None
  end.

Definition answers (c : Call) (m : Message) : bool :=
  match c, m with
  | CallChmod _ _, MsgChmodResponse _
  | CallMkdir _ _, MsgMkdirResponse _
  | CallRmdir _, MsgRmdirResponse _
  | CallRename _ _, MsgRenameResponse _
  | CallSymlink _ _, MsgSymlinkResponse _
  | CallUtimens _ (Some _) (Some _), MsgUtimeResponse _
  | CallMknod _ _ _, MsgMknodResponse _
  | CallUnlink _, MsgUnlinkResponse _
  | CallTruncate _ _, MsgTruncateResponse _
  | CallFlush _, MsgCloseResponse _
  | CallFileTruncate _ _, MsgTruncateResponse _ => true
  | _, _ => false
  end.

(** [τ] is [σ] after one completed round trip for [body]: one packet was
    written, under the id the counter had; the counter has advanced; the id
    is no longer registered; the instance can serve the next call. *)
Definition relayed (σ : Sys) (body : Message) (τ : Sys) : Prop :=
  wire τ = wire σ ++ [{| Header := {| ID := nextid (fs σ) |}; Body := body |}]
  ∧ nextid (fs τ) = uint64 (nextid (fs σ) + 1)
  ∧ res (fs τ) = delete (nextid (fs σ)) (res (fs σ))
  ∧ ready τ = true.

(** A peer that accepts every write and answers every request with the one
    packet [(id', m)], whatever the id of the request. *)
Definition answering_under (id' : Z) (m : Message) : Peer :=
  {| write_ok := λ _, true;
     answer := λ _, [Some {| Header := {| ID := id' |}; Body := m |}] |}.

(** A sequence of calls made one after the other on the instance, each run
    to its end against the peer. *)
Definition session (w : Peer) (cs : list Call) (σ : Sys) : Sys :=
  foldl (λ σ c, (exec w (handle_call c) σ).2) σ cs.

(** The packets an interleaving hands to the read loop. *)
Definition read_packets (evs : list Event) : list Packet :=
  omap (λ e, match e with EvDispatch (Some p) => Some p | _ => None end) evs.

Definition is_Init (e : Event) : bool :=
  match e with EvInit => true | _ => false end.


(** * Properties *)

(** ** A call answered by the peer *)

Lemma exec_SendPacket_replying {A} reply body (k : option chan → Relay A) σ :
  exec (replying reply) (SendPacket body k) σ
  = exec (replying reply) (k (Some (length (heap σ)))) (served reply body σ).
Proof.
  unfold served. simpl. unfold clientOnce_Do.
  destruct (clientOnce (fs σ)); reflexivity.
Qed.

Lemma loop_clientOnce_Do σ :
  ready σ = true → loop (clientOnce_Do initClient σ) = Reading.
Proof.
  unfold ready, clientOnce_Do. destruct (clientOnce (fs σ)); [|done].
  by destruct (loop σ).
Qed.

Lemma chan_recv_served reply body σ :
  ready σ = true →
  ∃ σ', chan_recv (length (heap σ)) (served reply body σ) = Some (reply body, σ')
        ∧ ready σ' = true
        ∧ wire σ' = wire σ ++ [{| Header := {| ID := nextid (fs σ) |}; Body := body |}].
Proof.
  intros Hr. pose proof (loop_clientOnce_Do σ Hr) as Hl.
  unfold served.
  assert (Hh : heap (clientOnce_Do initClient σ) = heap σ).
  { unfold clientOnce_Do. by destruct (clientOnce (fs σ)). }
  assert (Hc : clientOnce (fs (clientOnce_Do initClient σ)) = true).
  { unfold clientOnce_Do. by destruct (clientOnce (fs σ)) eqn:E. }
  assert (Hw : wire (clientOnce_Do initClient σ) = wire σ).
  { unfold clientOnce_Do. by destruct (clientOnce (fs σ)). }
  assert (Hn : nextid (fs (clientOnce_Do initClient σ)) = nextid (fs σ)).
  { unfold clientOnce_Do. by destruct (clientOnce (fs σ)). }
  revert Hl Hh Hc Hw Hn. generalize (clientOnce_Do initClient σ).
  intros τ Hl Hh Hc Hw Hn.
  unfold nextID, make_chan, readFromClient, WritePacket, dispatch, send, chan_recv.
  simpl. rewrite Hl. simpl. rewrite lookup_insert_eq. simpl.
  rewrite Hh.
  assert (E : (heap σ ++ [None]) !! length (heap σ) = Some (@None Message)).
  { by rewrite lookup_app_r, Nat.sub_diag. }
  rewrite !E. simpl.
  rewrite list_lookup_insert_eq by (rewrite length_app; simpl; lia).
  eexists. split; [reflexivity|]. unfold ready. simpl. by rewrite Hc, Hw, Hn.
Qed.

(** ** The invariant of the registry *)

Lemma elem_of_delivered_chans c t :
  c ∈ delivered_chans t ↔ ∃ id b, (id, c, b) ∈ delivered t.
Proof.
  unfold delivered_chans. rewrite list_elem_of_fmap. split.
  - intros [[[id c'] b] [-> H]]. by exists id, b.
  - intros (id & b & H). by exists (id, c, b).
Qed.

Lemma inv_delivered_allocated σ c : inv σ → c ∈ delivered_chans (trace σ) → allocated σ c.
Proof.
  intros I (id & b & H)%elem_of_delivered_chans.
  eapply inv_issued; [done|]. by eapply inv_deliv.
Qed.

Lemma delivered_chans_Delivered id c b t :
  delivered_chans (Delivered id c b :: t) = c :: delivered_chans t.
Proof. reflexivity. Qed.

Lemma delivered_Delivered id c b t :
  delivered (Delivered id c b :: t) = (id, c, b) :: delivered t.
Proof. reflexivity. Qed.

Lemma issued_Issued id c t : issued (Issued id c :: t) = (id, c) :: issued t.
Proof. reflexivity. Qed.

Lemma inv_newSys : inv newSys.
Proof.
  split; simpl; try done.
  - constructor.
  - intros ??? H. inversion H.
  - intros ?? H. inversion H.
Qed.

Lemma inv_clientOnce_Do σ : inv σ → inv (clientOnce_Do initClient σ).
Proof.
  intros [H1 H2 H3 H4 H5 H6 H7 H8]. unfold clientOnce_Do.
  destruct (clientOnce (fs σ)) eqn:E; [by split|].
  split; simpl; try done.
Qed.

Lemma inv_nextID σ : inv σ → inv (nextID σ).2.
Proof.
  intros I. pose proof (inv_delivered_allocated σ (length (heap σ)) I) as Hfresh.
  destruct I as [H1 H2 H3 H4 H5 H6 H7 H8]. unfold nextID, make_chan. simpl.
  split; unfold allocated in *; simpl; try done.
  - intros id c. rewrite length_app. simpl.
    destruct (decide (nextid (fs σ) = id)) as [<-|Hne].
    + rewrite lookup_insert_eq. intros [= <-]. split; [lia|]. split; [|left].
      intros Hin. apply Hfresh in Hin. lia.
    + rewrite lookup_insert_ne by done. intros Hl. destruct (H2 _ _ Hl) as (?&?&?).
      split; [lia|]. split; [done|]. by right.
  - intros i j c Hi Hj.
    destruct (decide (nextid (fs σ) = i)) as [<-|Hi'];
      destruct (decide (nextid (fs σ) = j)) as [<-|Hj']; [done|..].
    + rewrite lookup_insert_eq in Hi. rewrite lookup_insert_ne in Hj by done.
      injection Hi as <-. apply H2 in Hj as [? _]. lia.
    + rewrite lookup_insert_eq in Hj. rewrite lookup_insert_ne in Hi by done.
      injection Hj as <-. apply H2 in Hi as [? _]. lia.
    + rewrite lookup_insert_ne in Hi, Hj by done. eauto.
  - intros id c b Hl. destruct (H4 _ _ _ Hl) as (?&?&?&Hn).
    rewrite length_app. simpl. split; [lia|]. split; [done|]. split; [by right|].
    intros i. destruct (decide (nextid (fs σ) = i)) as [<-|Hi'].
    + rewrite lookup_insert_eq. intros [= <-]. lia.
    + rewrite lookup_insert_ne by done. apply Hn.
  - intros c m Hl. apply H5 with m.
    destruct (decide (c < length (heap σ))%nat).
    + by rewrite lookup_app_l in Hl.
    + rewrite lookup_app_r in Hl by lia.
      destruct (c - length (heap σ))%nat; simpl in Hl; [done|].
      by rewrite lookup_nil in Hl.
  - intros id c b Hin. right. eauto.
  - intros id c Hin. rewrite length_app. simpl.
    apply elem_of_cons in Hin as [[= -> ->]|Hin]; [lia|].
    apply H8 in Hin. lia.
Qed.

Lemma inv_dispatch r σ : inv σ → inv (dispatch r σ).
Proof.
  intros I. unfold dispatch. destruct (loop σ) eqn:El; try done.
  destruct r as [p|].
  - destruct (res (fs σ) !! ID (Header p)) as [c|] eqn:Hl.
    + destruct I as [H1 H2 H3 H4 H5 H6 H7 H8].
      split; unfold allocated in *; simpl; try done.
      * intros _. apply H1. by rewrite El.
      * intros id c'. rewrite lookup_delete_Some. intros [_ ?]. eauto.
      * intros i j c'. rewrite !lookup_delete_Some. intros [_ ?] [_ ?]. eauto.
      * intros id c' b [= <- <- <-]. destruct (H2 _ _ Hl) as (?&?&?).
        split; [done|]. split; [done|]. split; [done|].
        intros i. rewrite lookup_delete_Some. intros [Hne Hi]. apply Hne.
        eauto.
    + destruct I as [H1 H2 H3 H4 H5 H6 H7 H8].
      split; unfold allocated in *; simpl; try done.
      intros _. apply H1. by rewrite El.
  - destruct I as [H1 H2 H3 H4 H5 H6 H7 H8].
    split; unfold allocated in *; simpl; try done.
    intros _. apply H1. by rewrite El.
Qed.

Lemma send_never_blocks σ id c b :
  inv σ → loop σ = Sending id c b → heap σ !! c = Some None.
Proof.
  intros I Hl. destruct (inv_sending σ I _ _ _ Hl) as (Ha & Hnd & _).
  unfold allocated in Ha. destruct (heap σ !! c) as [[m|]|] eqn:E; [|done|].
  - exfalso. apply Hnd. by eapply inv_full.
  - apply lookup_ge_None in E. lia.
Qed.

Lemma inv_send σ : inv σ → inv (send σ).
Proof.
  intros I. unfold send. destruct (loop σ) as [| |id c b|] eqn:El; try done.
  rewrite (send_never_blocks σ id c b I El).
  destruct (inv_sending σ I _ _ _ El) as (Ha & Hnd & Hiss & Hres).
  destruct I as [H1 H2 H3 H4 H5 H6 H7 H8].
  split; unfold allocated in *; simpl;
    rewrite ?delivered_chans_Delivered, ?delivered_Delivered, ?length_insert;
    try done.
  - intros _. apply H1. by rewrite El.
  - intros id' c' Hc'. destruct (H2 _ _ Hc') as (?&?&?).
    split; [done|]. split; [|done].
    rewrite not_elem_of_cons. split; [|done]. intros ->. by eapply Hres.
  - intros c' m. destruct (decide (c = c')) as [->|Hne].
    + intros _. left.
    + rewrite list_lookup_insert_ne by done. intros Hm. right. by eapply H5.
  - by constructor.
  - intros id' c' b'. rewrite elem_of_cons. intros [[= -> -> ->]|Hin]; eauto.
Qed.

Lemma inv_chan_recv c σ m σ' : inv σ → chan_recv c σ = Some (m, σ') → inv σ'.
Proof.
  intros I. unfold chan_recv.
  destruct (heap σ !! c) as [[m'|]|] eqn:E; try done. intros [= <- <-].
  destruct I as [H1 H2 H3 H4 H5 H6 H7 H8].
  split; unfold allocated in *; simpl; try done.
  - intros id c' Hc'. rewrite length_insert. eauto.
  - intros id c' b Hl. rewrite length_insert. eauto.
  - intros c' m''. destruct (decide (c = c')) as [->|Hne].
    + rewrite list_lookup_insert_eq; [done|]. by eapply lookup_lt_Some.
    + rewrite list_lookup_insert_ne by done. eauto.
  - intros id c' Hin. rewrite length_insert. eauto.
Qed.

Lemma inv_step σ e : inv σ → inv (step σ e).
Proof.
  intros I. destruct e as [| |r| |c]; simpl.
  - by apply inv_clientOnce_Do.
  - by apply inv_nextID.
  - by apply inv_dispatch.
  - by apply inv_send.
  - destruct (chan_recv c σ) as [[m σ']|] eqn:E; [|done].
    by eapply inv_chan_recv.
Qed.

Lemma inv_run σ evs : inv σ → inv (run σ evs).
Proof.
  revert σ. induction evs as [|e evs IH]; intros σ I; [done|].
  simpl. apply IH. by apply inv_step.
Qed.

(** ** After the read loop has returned *)

(** Once the loop has returned it stays so, and nothing is delivered. *)
Lemma exited_step σ e :
  clientOnce (fs σ) = true → loop σ = Exited →
  clientOnce (fs (step σ e)) = true ∧ loop (step σ e) = Exited
  ∧ delivered (trace (step σ e)) = delivered (trace σ).
Proof.
  intros Hc Hl. destruct e as [| |r| |c]; simpl.
  - unfold clientOnce_Do. by rewrite Hc.
  - done.
  - unfold dispatch. by rewrite Hl.
  - unfold send. by rewrite Hl.
  - unfold chan_recv. by destruct (heap σ !! c) as [[m|]|].
Qed.

Lemma exited_run σ evs :
  clientOnce (fs σ) = true → loop σ = Exited →
  loop (run σ evs) = Exited ∧ delivered (trace (run σ evs)) = delivered (trace σ).
Proof.
  revert σ. induction evs as [|e evs IH]; intros σ Hc Hl; [done|].
  simpl. destruct (exited_step σ e Hc Hl) as (Hc' & Hl' & Hd).
  rewrite <- Hd. by apply IH.
Qed.



(** ** The counter of nextID *)

Lemma counted_newSys : counted newSys.
Proof. by split. Qed.

Lemma nth_id_S i : uint64 (nth_id i + 1) = nth_id (S i).
Proof.
  unfold nth_id, uint64. rewrite Nat2Z.inj_succ. unfold Z.succ.
  by rewrite Zplus_mod_idemp_l.
Qed.

Lemma counted_step σ e : counted σ → counted (step σ e).
Proof.
  intros [H1 H2 H3]. destruct e as [| |r| |c]; simpl.
  - unfold clientOnce_Do. by destruct (clientOnce (fs σ)).
  - unfold nextID, make_chan.
    split; cbn [trace fs heap nextid fst snd]; rewrite issued_Issued; cbn [length].
    + by rewrite H1, nth_id_S.
    + rewrite length_app. simpl. lia.
    + rewrite seq_S, fmap_app, reverse_app. cbn [fmap list_fmap reverse app Nat.add].
      by rewrite <- H3, H1, H2.
  - unfold dispatch. destruct (loop σ); try done.
    destruct r as [p|]; [|done].
    by destruct (res (fs σ) !! ID (Header p)).
  - unfold send. destruct (loop σ); try done.
    destruct (heap σ !! resc) as [[m|]|]; try done.
    split; simpl; [done| |done]. by rewrite length_insert.
  - unfold chan_recv. destruct (heap σ !! c) as [[m|]|]; try done.
    split; simpl; [done| |done]. by rewrite length_insert.
Qed.

Lemma counted_run σ evs : counted σ → counted (run σ evs).
Proof.
  revert σ. induction evs as [|e evs IH]; intros σ I; [done|].
  simpl. apply IH. by apply counted_step.
Qed.

Lemma issued_step σ e :
  length (issued (trace (step σ e)))
  = (length (issued (trace σ)) + if is_NextID e then 1 else 0)%nat.
Proof.
  destruct e as [| |r| |c]; simpl.
  - unfold clientOnce_Do. destruct (clientOnce (fs σ)); simpl; lia.
  - lia.
  - unfold dispatch. destruct (loop σ); simpl; try lia.
    destruct r as [p|]; simpl; [|lia].
    destruct (res (fs σ) !! ID (Header p)); simpl; lia.
  - unfold send. destruct (loop σ); simpl; try lia.
    destruct (heap σ !! resc) as [[m|]|]; simpl; lia.
  - unfold chan_recv. destruct (heap σ !! c) as [[m|]|]; simpl; lia.
Qed.

Lemma issued_run σ evs :
  length (issued (trace (run σ evs))) = (length (issued (trace σ)) + calls evs)%nat.
Proof.
  revert σ. induction evs as [|e evs IH]; intros σ; simpl.
  - unfold calls. simpl. lia.
  - rewrite IH, issued_step. unfold calls. simpl.
    destruct (is_NextID e); simpl; lia.
Qed.

Lemma nth_id_small i : Z.of_nat i < uint64_mod → nth_id i = Z.of_nat i.
Proof. intros H. unfold nth_id, uint64. apply Z.mod_small. lia. Qed.

Lemma NoDup_ids n :
  Z.of_nat n ≤ uint64_mod → NoDup (nth_id <$> seq 0 n).
Proof.
  intros Hn. apply NoDup_fmap_2_strong; [|apply NoDup_seq].
  intros x y Hx%elem_of_seq Hy%elem_of_seq E.
  rewrite !nth_id_small in E by lia. lia.
Qed.

Lemma dup_ids n :
  uint64_mod < Z.of_nat n → ¬ NoDup (nth_id <$> seq 0 n).
Proof.
  intros Hn Hd.
  assert (Hpos : 0 ≤ uint64_mod) by done.
  assert (H0 : (nth_id <$> seq 0 n) !! 0%nat = Some 0).
  { rewrite list_lookup_fmap, lookup_seq_lt by lia. done. }
  assert (H1 : (nth_id <$> seq 0 n) !! (Z.to_nat uint64_mod) = Some 0).
  { rewrite list_lookup_fmap, lookup_seq_lt by lia. cbn [fmap option_fmap option_map Nat.add].
    unfold nth_id, uint64. rewrite Z2Nat.id by done. by rewrite Z_mod_same_full. }
  pose proof (NoDup_lookup _ _ _ _ Hd H0 H1) as E.
  assert (Z.of_nat 0 = Z.of_nat (Z.to_nat uint64_mod)) as E' by (by rewrite <- E).
  rewrite Z2Nat.id in E' by done. done.
Qed.

(** ** One call against a replying peer *)

Ltac roundtrip Hr :=
  unfold sendPacket, recv;
  cbn [mbind mret Relay_mbind Relay_ret Relay_bind];
  rewrite exec_SendPacket_replying;
  lazymatch goal with
  | |- context [served ?reply ?body ?σ] =>
      let τ := fresh "τ" in
      let Hrecv := fresh "Hrecv" in
      let Hready := fresh "Hready" in
      let Hwire := fresh "Hwire" in
      destruct (chan_recv_served reply body σ Hr) as (τ & Hrecv & Hready & Hwire);
      cbn [Relay_bind exec]; rewrite Hrecv; cbn [Relay_bind exec]
  end.

(** *** Kind mismatch: the handlers that check [ok] *)

Lemma checked_handlers_wrong_kind σ (name target : string) (mode dev size off : Z)
    (t1 t2 : GoTime) (f : file) (dest : list Byte.byte) :
  ready σ = true →
  (∀ m, asChmodResponse m = None →
        (exec (replying (λ _, m)) (Chmod name mode) σ).1 = Returned EIO)
  ∧ (∀ m, name ≠ EmptyString → asAttrResponse m = None →
        (exec (replying (λ _, m)) (GetAttr name) σ).1 = Returned (None, EIO))
  ∧ (∀ m, asOpenResponse m = None →
        (exec (replying (λ _, m)) (Open name mode) σ).1 = Returned (None, EIO))
  ∧ (∀ m, asReaddirResponse m = None →
        (exec (replying (λ _, m)) (OpenDir name) σ).1 = Returned ([], EIO))
  ∧ (∀ m, asReadlinkResponse m = None →
        (exec (replying (λ _, m)) (Readlink name) σ).1 = Returned (EmptyString, EIO))
  ∧ (∀ m, asRenameResponse m = None →
        (exec (replying (λ _, m)) (Rename name target) σ).1 = Returned EIO)
  ∧ (∀ m, asSymlinkResponse m = None →
        (exec (replying (λ _, m)) (Symlink name target) σ).1 = Returned EIO)
  ∧ (∀ m, asUtimeResponse m = None →
        (exec (replying (λ _, m)) (Utimens name (Some t1) (Some t2)) σ).1 = Returned EIO)
  ∧ (∀ m, asMknodResponse m = None →
        (exec (replying (λ _, m)) (Mknod name mode dev) σ).1 = Returned EIO)
  ∧ (∀ m, asUnlinkResponse m = None →
        (exec (replying (λ _, m)) (Unlink name) σ).1 = Returned EIO)
  ∧ (∀ m, asTruncateResponse m = None →
        (exec (replying (λ _, m)) (Truncate name size) σ).1 = Returned EIO)
  ∧ (∀ m, asCloseResponse m = None →
        (exec (replying (λ _, m)) (file_Flush f) σ).1 = Returned EIO)
  ∧ (∀ m, asReadResponse m = None →
        (exec (replying (λ _, m)) (file_Read f dest off) σ).1 = Returned (None, EIO))
  ∧ (∀ m, asTruncateResponse m = None →
        (exec (replying (λ _, m)) (file_Truncate f size) σ).1 = Returned EIO).
Proof.
  intros Hr. repeat split; intros m.
  - intros Hm. unfold Chmod. roundtrip Hr. by rewrite Hm.
  - intros Hn Hm. unfold GetAttr. destruct (decide (name = EmptyString)); [done|].
    roundtrip Hr. by rewrite Hm.
  - intros Hm. unfold Open. roundtrip Hr. by rewrite Hm.
  - intros Hm. unfold OpenDir. roundtrip Hr. by rewrite Hm.
  - intros Hm. unfold Readlink. roundtrip Hr. by rewrite Hm.
  - intros Hm. unfold Rename. roundtrip Hr. by rewrite Hm.
  - intros Hm. unfold Symlink. roundtrip Hr. by rewrite Hm.
  - intros Hm. unfold Utimens, pbTime, deref. roundtrip Hr. by rewrite Hm.
  - intros Hm. unfold Mknod. roundtrip Hr. by rewrite Hm.
  - intros Hm. unfold Unlink. roundtrip Hr. by rewrite Hm.
  - intros Hm. unfold Truncate. roundtrip Hr. by rewrite Hm.
  - intros Hm. unfold file_Flush. roundtrip Hr. by rewrite Hm.
  - intros Hm. unfold file_Read. roundtrip Hr. by rewrite Hm.
  - intros Hm. unfold file_Truncate. roundtrip Hr. by rewrite Hm.
Qed.

(** *** Kind mismatch in Mkdir and Rmdir *)

Lemma Mkdir_wrong_kind σ name mode m :
  ready σ = true → asMkdirResponse m = None →
  (exec (replying (λ _, m)) (Mkdir name mode) σ).1 = Panicked.
Proof. intros Hr Hm. unfold Mkdir. roundtrip Hr. by rewrite Hm. Qed.

Lemma Rmdir_wrong_kind σ name m :
  ready σ = true → asRmdirResponse m = None →
  (exec (replying (λ _, m)) (Rmdir name) σ).1 = Panicked.
Proof. intros Hr Hm. unfold Rmdir. roundtrip Hr. by rewrite Hm. Qed.

(** C3. Mkdir and Rmdir, answered with a response of another kind (here a
    ChmodResponse without Error record), do not return EIO: the handler
    dereferences the nil result of the failed type assertion and panics. *)
Theorem Mkdir_Rmdir_kind_mismatch_panics :
  (exec (replying (λ _, MsgChmodResponse (mkChmodResponse None)))
        (Mkdir "d"%string 493) newSys).1 = Panicked
  ∧ (exec (replying (λ _, MsgChmodResponse (mkChmodResponse None)))
          (Rmdir "d"%string) newSys).1 = Panicked.
Proof. split; [by apply Mkdir_wrong_kind | by apply Rmdir_wrong_kind]. Qed.

(** *** The Error record *)

Lemma checked_handlers_Err σ (name : string) (flags : Z) (e : Error)
    (attr : option Attr) (h : option Z) (target : option string) :
  ready σ = true →
  (name ≠ EmptyString →
   (exec (replying (λ _, MsgAttrResponse (mkAttrResponse (Some e) attr)))
         (GetAttr name) σ).1 = Returned (None, fuseError (Some e)))
  ∧ (exec (replying (λ _, MsgOpenResponse (mkOpenResponse (Some e) h)))
          (Open name flags) σ).1 = Returned (None, fuseError (Some e))
  ∧ (exec (replying (λ _, MsgReadlinkResponse (mkReadlinkResponse (Some e) target)))
          (Readlink name) σ).1 = Returned (EmptyString, fuseError (Some e)).
Proof.
  intros Hr. repeat split.
  - intros Hn. unfold GetAttr. destruct (decide (name = EmptyString)); [done|].
    by roundtrip Hr.
  - unfold Open. by roundtrip Hr.
  - unfold Readlink. by roundtrip Hr.
Qed.

Lemma file_Read_ignores_Err σ f dest off res :
  ready σ = true →
  (exec (replying (λ _, MsgReadResponse res)) (file_Read f dest off) σ).1
  = Returned (Some (ReadResultData (ReadResponse_Data res)), OK).
Proof. intros Hr. unfold file_Read. by roundtrip Hr. Qed.

Lemma OpenDir_returns_entries σ name res :
  ready σ = true →
  (exec (replying (λ _, MsgReaddirResponse res)) (OpenDir name) σ).1
  = Returned ((λ ent, {| Name := DirEntry_GetName ent; EntryMode := DirEntry_GetMode ent |})
                <$> ReaddirResponse_Entry res,
              fuseError (ReaddirResponse_Err res)).
Proof. intros Hr. unfold OpenDir. by roundtrip Hr. Qed.

(** C4. A ReadResponse that carries the Error record "not found" makes
    file.Read return its data with status OK, and a ReaddirResponse with
    that Error record makes OpenDir return the entries together with
    ENOENT: neither returns the mapped status with no payload. *)
Theorem file_Read_OpenDir_with_Err :
  let err := Some {| NotExist := Some true; ReadOnly := None; NotDir := None |} in
  (exec (replying (λ _, MsgReadResponse (mkReadResponse err [Byte.x01])))
        (file_Read (mkFile 7 "f"%string 0) [Byte.x00; Byte.x00] 0) newSys).1
  = Returned (Some (ReadResultData [Byte.x01]), OK)
  ∧ (exec (replying (λ _, MsgReaddirResponse
                            (mkReaddirResponse err
                               [mkDirEntry (Some "a"%string) (Some 420)])))
          (OpenDir "d"%string) newSys).1
    = Returned ([mkFuseDirEntry "a"%string 420], ENOENT).
Proof.
  split; [by rewrite file_Read_ignores_Err | by rewrite OpenDir_returns_entries].
Qed.

(** ** fuseError *)

(** C5. fuseError is the table: no Error record gives OK; the not-found
    reason gives ENOENT; otherwise the read-only reason gives EROFS;
    otherwise the not-a-directory reason gives ENOTDIR; an Error record
    with none of the three reasons gives EIO; and an Error record never
    gives OK. *)
Theorem fuseError_table :
  fuseError None = OK
  ∧ (∀ e, GetNotExist e = true → fuseError (Some e) = ENOENT)
  ∧ (∀ e, GetNotExist e = false → GetReadOnly e = true → fuseError (Some e) = EROFS)
  ∧ (∀ e, GetNotExist e = false → GetReadOnly e = false → GetNotDir e = true →
          fuseError (Some e) = ENOTDIR)
  ∧ (∀ e, GetNotExist e = false → GetReadOnly e = false → GetNotDir e = false →
          fuseError (Some e) = EIO)
  ∧ (∀ e, fuseError (Some e) ≠ OK).
Proof.
  split; [done|]. repeat split.
  - intros e H. simpl. by rewrite H.
  - intros e H1 H2. simpl. by rewrite H1, H2.
  - intros e H1 H2 H3. simpl. by rewrite H1, H2, H3.
  - intros e H1 H2 H3. simpl. by rewrite H1, H2, H3.
  - intros e. simpl.
    by destruct (GetNotExist e), (GetReadOnly e), (GetNotDir e).
Qed.

Lemma fuseError_table_witness :
  fuseError (Some (mkError (Some true) None None)) = ENOENT
  ∧ fuseError (Some (mkError None (Some true) None)) = EROFS
  ∧ fuseError (Some (mkError None None (Some true))) = ENOTDIR
  ∧ fuseError (Some (mkError None None None)) = EIO.
Proof.
  destruct fuseError_table as (_ & H1 & H2 & H3 & H4 & _).
  split; [apply H1; reflexivity|].
  split; [apply H2; reflexivity|].
  split; [apply H3; reflexivity|].
  apply H4; reflexivity.
Defined.

(** ** GetAttr *)

(** C7. GetAttr on the root path (the empty name) returns the synthetic
    directory attribute with status OK whatever the peer and the state of
    the instance, and leaves the instance as it was: no id is allocated and
    nothing is written to the connection. *)
Theorem GetAttr_root (w : Peer) (σ : Sys) :
  GetAttr EmptyString = Ret (Some rootAttr, OK)
  ∧ exec w (GetAttr EmptyString) σ = (Returned (Some rootAttr, OK), σ)
  ∧ Mode rootAttr = Z.lor 493 16384
  ∧ Z.land (Mode rootAttr) 511 = 493
  ∧ Z.testbit (Mode rootAttr) 14 = true.
Proof. done. Qed.

(** C10. GetAttr on a non-root path, answered with an AttrResponse that has
    neither an Error record nor an attribute payload, returns no attribute
    and EIO. *)
Theorem GetAttr_nil_Attr (σ : Sys) (name : string) :
  ready σ = true → name ≠ EmptyString →
  (exec (replying (λ _, MsgAttrResponse (mkAttrResponse None None)))
        (GetAttr name) σ).1 = Returned (None, EIO).
Proof.
  intros Hr Hn. unfold GetAttr. destruct (decide (name = EmptyString)); [done|].
  by roundtrip Hr.
Qed.

Lemma GetAttr_nil_Attr_witness :
  (exec (replying (λ _, MsgAttrResponse (mkAttrResponse None None)))
        (GetAttr "a"%string) newSys).1 = Returned (None, EIO).
Proof. apply (GetAttr_nil_Attr newSys "a"%string); [reflexivity|discriminate]. Defined.

(** ** Open *)

(** C8. Open, answered with an OpenResponse without Error record whose
    handle is 0 (or absent), returns no file and EIO; and whatever the peer
    does, a file returned by Open has a nonzero handle. *)
Theorem Open_zero_handle (σ : Sys) (name : string) (flags : Z) (res : OpenResponse) :
  ready σ = true →
  OpenResponse_Err res = None →
  OpenResponse_GetHandle res = 0 →
  (exec (replying (λ _, MsgOpenResponse res)) (Open name flags) σ).1
  = Returned (None, EIO)
  ∧ ∀ (w : Peer) (τ : Sys) (f : file) (s : Status),
      (exec w (Open name flags) τ).1 = Returned (Some f, s) → handle f ≠ 0 ∧ s = OK.
Proof.
  intros Hr He Hh. split.
  - unfold Open. roundtrip Hr. cbn beta iota delta [asOpenResponse]. rewrite He.
    cbn [handle]. rewrite Hh. by destruct (decide (0 = 0)).
  - intros w τ f s. unfold Open, sendPacket, recv.
    cbn [mbind mret Relay_mbind Relay_ret Relay_bind exec].
    destruct (nextID (clientOnce_Do initClient τ)) as [[id c] τ1].
    destruct (write_ok w _); cbn [Relay_bind exec]; [|by intros [=]].
    destruct (chan_recv c _) as [[m τ2]|]; cbn [Relay_bind exec]; [|by intros [=]].
    destruct (asOpenResponse m) as [r|]; cbn [Relay_bind exec]; [|by intros [=]].
    destruct (OpenResponse_Err r); cbn [Relay_bind exec]; [by intros [=]|].
    destruct (decide _) as [|Hnz]; cbn [Relay_bind exec]; [by intros [=]|].
    intros [= <- <-]. done.
Qed.

Lemma Open_zero_handle_witness :
  (exec (replying (λ _, MsgOpenResponse (mkOpenResponse None (Some 0))))
        (Open "a"%string 0) newSys).1 = Returned (None, EIO).
Proof.
  apply (Open_zero_handle newSys "a"%string 0 (mkOpenResponse None (Some 0)));
    reflexivity.
Defined.

(** ** file.Read *)

(** C6. file.Read, answered with a ReadResponse, returns exactly the bytes
    of its Data field with status OK, whatever the length of the
    destination buffer, and writes a single ReadRequest. *)
Theorem file_Read_returns_payload (σ : Sys) (f : file) (dest : list Byte.byte)
    (off : Z) (res : ReadResponse) :
  ready σ = true →
  ∃ r τ, exec (replying (λ _, MsgReadResponse res)) (file_Read f dest off) σ
         = (Returned (Some r, OK), τ)
     ∧ Bytes r = ReadResponse_Data res
     ∧ wire τ = wire σ ++
         [{| Header := {| ID := nextid (fs σ) |};
             Body := ReadRequest (Some (handle f)) (Some (uint64 off))
                       (Some (uint64 (Z.of_nat (length dest)))) |}].
Proof.
  intros Hr. unfold file_Read. roundtrip Hr.
  eexists _, _. split; [reflexivity|]. by split.
Qed.

Lemma file_Read_returns_payload_witness :
  ∃ r τ, exec (replying (λ _, MsgReadResponse (mkReadResponse None [Byte.x2a])))
              (file_Read (mkFile 7 "f"%string 0)
                         [Byte.x00; Byte.x00; Byte.x00; Byte.x00] 0) newSys
         = (Returned (Some r, OK), τ)
     ∧ Bytes r = [Byte.x2a]
     ∧ wire τ = [{| Header := {| ID := 0 |};
                    Body := ReadRequest (Some 7) (Some 0) (Some 4) |}].
Proof.
  apply (file_Read_returns_payload newSys (mkFile 7 "f"%string 0)
           [Byte.x00; Byte.x00; Byte.x00; Byte.x00] 0
           (mkReadResponse None [Byte.x2a])).
  reflexivity.
Defined.

(** ** Utimens *)

Lemma Utimens_request σ name t1 t2 res :
  ready σ = true →
  ∃ τ, exec (replying (λ _, MsgUtimeResponse res)) (Utimens name (Some t1) (Some t2)) σ
       = (Returned (fuseError (UtimeResponse_Err res)), τ)
     ∧ wire τ = wire σ ++
         [{| Header := {| ID := nextid (fs σ) |};
             Body := UtimeRequest (Some name)
                       (Some {| Sec := Some (Unix t1); Nsec := Some (int32 (Nanosecond t1)) |})
                       (Some {| Sec := Some (Unix t2); Nsec := Some (int32 (Nanosecond t2)) |}) |}].
Proof.
  intros Hr. unfold Utimens, pbTime, deref. roundtrip Hr.
  eexists. by split.
Qed.

(** C9. Utimens called with a nil atime (or a nil mtime) panics in pbTime
    before any request is built: nothing is written to the connection and
    the instance is left untouched. *)
Theorem Utimens_nil_time_panics (w : Peer) :
  exec w (Utimens "f"%string None (Some (mkGoTime 1 2))) newSys = (Panicked, newSys)
  ∧ exec w (Utimens "f"%string (Some (mkGoTime 1 2)) None) newSys = (Panicked, newSys).
Proof. done. Qed.

(** ** The registry and the read loop *)

Lemma inv_reachable evs : inv (run newSys evs).
Proof. apply inv_run, inv_newSys. Qed.




(** ** The ids returned by nextID *)

Lemma issued_reachable evs :
  issued (trace (run newSys evs))
  = reverse ((λ i, (nth_id i, i)) <$> seq 0 (calls evs)).
Proof.
  pose proof (counted_issued _ (counted_run newSys evs counted_newSys)) as H.
  by rewrite issued_run in H.
Qed.

Lemma ids_reachable evs :
  (issued (trace (run newSys evs))).*1 = reverse (nth_id <$> seq 0 (calls evs)).
Proof.
  rewrite issued_reachable, fmap_reverse, <- list_fmap_compose. done.
Qed.

Lemma chans_reachable evs :
  (issued (trace (run newSys evs))).*2 = reverse (seq 0 (calls evs)).
Proof.
  rewrite issued_reachable, fmap_reverse, <- list_fmap_compose.
  by rewrite list_fmap_id.
Qed.

Lemma NoDup_reverse {A} (l : list A) : NoDup (reverse l) ↔ NoDup l.
Proof. by rewrite reverse_Permutation. Qed.

Lemma calls_replicate n : calls (replicate n EvNextID) = n.
Proof.
  unfold calls. induction n as [|n IH]; [done|].
  cbn [replicate List.filter is_NextID length]. by rewrite IH.
Qed.


Lemma run_app σ evs1 evs2 : run σ (evs1 ++ evs2) = run (run σ evs1) evs2.
Proof. apply foldl_app. Qed.





(** C2, as stated, fails: after 2^64 calls the counter is 0 again, so the
    ids returned by 2^64 + 1 calls of nextID on a new instance are not
    pairwise distinct. *)
Lemma nextID_repeats_after_wraparound :
  ¬ NoDup (issued (trace (run newSys
             (replicate (Z.to_nat (uint64_mod + 1)) EvNextID)))).*1.
Proof.
  rewrite ids_reachable, calls_replicate, NoDup_reverse.
  apply dup_ids. rewrite Z2Nat.id; [lia|done].
Qed.

(** C2, amended. While fewer than 2^64 ids have been issued, in any
    interleaving with the other actions of the instance, nextID returns the
    number of earlier calls as id, an id that was never returned before and
    has no registry entry, and registers it with a channel that did not
    exist before and whose one slot is empty; the ids returned so far
    remain pairwise distinct. *)
Theorem nextID_fresh_until_wraparound (evs : list Event) :
  Z.of_nat (calls evs) < uint64_mod →
  let σ := run newSys evs in
  let id := (nextID σ).1.1 in
  let c := (nextID σ).1.2 in
  let σ' := (nextID σ).2 in
  id = Z.of_nat (calls evs)
  ∧ (id ∉ (issued (trace σ)).*1)
  ∧ res (fs σ) !! id = None
  ∧ (c ∉ (issued (trace σ)).*2)
  ∧ heap σ !! c = None
  ∧ heap σ' !! c = Some None
  ∧ res (fs σ') !! id = Some c
  ∧ nextid (fs σ') = uint64 (id + 1)
  ∧ NoDup (issued (trace σ')).*1.
Proof.
  intros Hlt σ id c σ'.
  pose proof (counted_run newSys evs counted_newSys) as [Hn Hh _]. fold σ in Hn, Hh.
  pose proof (inv_reachable evs) as I. fold σ in I.
  assert (Hlen : length (issued (trace σ)) = calls evs).
  { unfold σ. by rewrite issued_run. }
  assert (Hid : id = Z.of_nat (calls evs)).
  { unfold id, nextID, make_chan. simpl. rewrite Hn, Hlen. by apply nth_id_small. }
  assert (Hc : c = calls evs).
  { unfold c, nextID, make_chan. simpl. by rewrite Hh. }
  assert (Hfresh : id ∉ (issued (trace σ)).*1).
  { unfold σ. rewrite ids_reachable, elem_of_reverse, list_elem_of_fmap.
    intros (i & Hi & Hin%elem_of_seq). rewrite Hid, nth_id_small in Hi by lia. lia. }
  split; [done|]. split; [done|].
  split.
  { destruct (res (fs σ) !! id) as [c'|] eqn:E; [|done].
    exfalso. apply Hfresh. destruct (inv_res σ I _ _ E) as (_ & _ & Hin).
    apply list_elem_of_fmap. by exists (id, c'). }
  split.
  { unfold σ. rewrite chans_reachable, elem_of_reverse, elem_of_seq. lia. }
  split.
  { apply lookup_ge_None. lia. }
  split.
  { unfold c, σ', nextID, make_chan. simpl. by apply list_lookup_middle. }
  split.
  { unfold c, id, σ', nextID, make_chan. simpl. apply lookup_insert_eq. }
  split; [done|].
  change (NoDup (id :: (issued (trace σ)).*1)). apply NoDup_cons. split; [done|].
  unfold σ. rewrite ids_reachable, NoDup_reverse. apply NoDup_ids. lia.
Qed.

Lemma nextID_fresh_until_wraparound_witness :
  let σ := run newSys [EvInit; EvNextID; EvDispatch None; EvNextID] in
  (nextID σ).1.1 = 2
  ∧ NoDup (issued (trace (nextID σ).2)).*1.
Proof.
  intros σ.
  destruct (nextID_fresh_until_wraparound
              [EvInit; EvNextID; EvDispatch None; EvNextID])
    as (H1 & _ & _ & _ & _ & _ & _ & _ & H2); [vm_compute; reflexivity|].
  split; [exact H1|exact H2].
Defined.

(** * Further properties of the code *)

(** ** sendPacket and the state it leaves *)

Lemma clientOnce_Do_fields σ :
  heap (clientOnce_Do initClient σ) = heap σ
  ∧ wire (clientOnce_Do initClient σ) = wire σ
  ∧ trace (clientOnce_Do initClient σ) = trace σ
  ∧ nextid (fs (clientOnce_Do initClient σ)) = nextid (fs σ)
  ∧ res (fs (clientOnce_Do initClient σ)) = res (fs σ)
  ∧ clientOnce (fs (clientOnce_Do initClient σ)) = true.
Proof. unfold clientOnce_Do. by destruct (clientOnce (fs σ)) eqn:E. Qed.

Lemma served_recv reply body σ :
  ready σ = true →
  ∃ τ, chan_recv (length (heap σ)) (served reply body σ) = Some (reply body, τ)
       ∧ relayed σ body τ
       ∧ trace τ = Delivered (nextid (fs σ)) (length (heap σ)) (reply body)
                   :: Issued (nextid (fs σ)) (length (heap σ)) :: trace σ.
Proof.
  intros Hr. pose proof (loop_clientOnce_Do σ Hr) as Hl.
  destruct (clientOnce_Do_fields σ) as (Hh & Hw & Ht & Hn & Hres & Hc).
  unfold served.
  revert Hl Hh Hw Ht Hn Hres Hc. generalize (clientOnce_Do initClient σ).
  intros τ Hl Hh Hw Ht Hn Hres Hc.
  unfold nextID, make_chan, readFromClient, WritePacket, dispatch, send, chan_recv.
  simpl. rewrite Hl. simpl. rewrite lookup_insert_eq. simpl.
  rewrite Hh.
  assert (E : (heap σ ++ [None]) !! length (heap σ) = Some (@None Message)).
  { by rewrite lookup_app_r, Nat.sub_diag. }
  rewrite !E. simpl.
  rewrite list_lookup_insert_eq by (rewrite length_app; simpl; lia).
  eexists. split; [reflexivity|]. unfold relayed, ready. simpl.
  rewrite Hc, Hw, Hn, Ht, Hres. by rewrite delete_insert_eq.
Qed.

Ltac roundtrip_state Hr :=
  unfold sendPacket, recv;
  cbn [mbind mret Relay_mbind Relay_ret Relay_bind];
  rewrite exec_SendPacket_replying;
  lazymatch goal with
  | |- context [served ?reply ?body ?σ] =>
      let τ := fresh "τ" in
      let Hrecv := fresh "Hrecv" in
      let Hrel := fresh "Hrel" in
      let Htr := fresh "Htr" in
      destruct (served_recv reply body σ Hr) as (τ & Hrecv & Hrel & Htr);
      cbn [Relay_bind exec mbind mret Relay_mbind Relay_ret];
      rewrite Hrecv;
      cbn [Relay_bind exec mbind mret Relay_mbind Relay_ret]
  end.

(** Case analysis on whatever the handler inspects in the response. *)
Ltac crunch :=
  repeat (cbn [Relay_bind exec mbind mret Relay_mbind Relay_ret deref fst snd];
          lazymatch goal with
          | |- context [match ?x with _ => _ end] => destruct x
          | |- context [if ?x then _ else _] => destruct x
          end);
  cbn [Relay_bind exec mbind mret Relay_mbind Relay_ret deref fst snd].

(** X1. Every call that relays (all but GetAttr on the root and Utimens
    with a nil time), made on an instance that can serve it and answered
    under its id, writes exactly one packet: the request of [request_of]
    built from its arguments, under the id the counter had. Afterwards the
    counter has advanced by one, the id is no longer registered and the
    instance can serve the next call, whatever the kind of the answer. *)
Theorem call_relays_one_request (σ : Sys) (reply : Message → Message)
    (c : Call) (body : Message) :
  ready σ = true →
  request_of c = Some body →
  relayed σ body (exec (replying reply) (handle_call c) σ).2.
Proof.
  intros Hr Hreq.
  destruct c; cbn [request_of] in Hreq;
    try (destruct atime; [destruct mtime|]; try discriminate Hreq);
    try (destruct (decide (name = EmptyString)) as [|Hne] eqn:Hdec;
         [discriminate Hreq|]);
    injection Hreq as <-;
    unfold handle_call, Chmod, GetAttr, Mkdir, Open, OpenDir, Readlink, Rename,
      Rmdir, Symlink, Utimens, pbTime, deref, Mknod, Unlink, Truncate, file_Flush,
      file_Read, file_Truncate;
    try rewrite Hdec;
    roundtrip_state Hr; crunch; exact Hrel.
Qed.

(** *** A failed write *)

Lemma exec_SendPacket_failed {A} (w : Peer) body (k : option chan → Relay A) σ :
  write_ok w {| Header := {| ID := nextid (fs σ) |}; Body := body |} = false →
  exec w (SendPacket body k) σ = exec w (k None) (nextID (clientOnce_Do initClient σ)).2.
Proof.
  intros Hw. destruct (clientOnce_Do_fields σ) as (_ & _ & _ & Hn & _).
  cbn [exec]. revert Hn. generalize (clientOnce_Do initClient σ). intros τ Hn.
  unfold nextID, make_chan. simpl. by rewrite Hn, Hw.
Qed.

(** X2. When WritePacket fails, every relaying call returns EIO with no
    payload, in any state and without waiting for an answer; the id
    allocated by nextID stays registered (nothing forgets it), the counter
    has advanced, and nothing was written or delivered. *)
Theorem write_failure_is_EIO (w : Peer) (σ : Sys) (c : Call) (body : Message) :
  request_of c = Some body →
  (∀ p, write_ok w p = false) →
  ∃ r τ, exec w (handle_call c) σ = (Returned r, τ)
         ∧ code_of r = EIO
         ∧ no_payload r = true
         ∧ wire τ = wire σ
         ∧ nextid (fs τ) = uint64 (nextid (fs σ) + 1)
         ∧ res (fs τ) !! nextid (fs σ) = Some (length (heap σ))
         ∧ delivered (trace τ) = delivered (trace σ).
Proof.
  intros Hreq Hw.
  destruct (clientOnce_Do_fields σ) as (Hh & Hwi & Ht & Hn & Hres & _).
  assert (Hpost : wire (nextID (clientOnce_Do initClient σ)).2 = wire σ
          ∧ nextid (fs (nextID (clientOnce_Do initClient σ)).2) = uint64 (nextid (fs σ) + 1)
          ∧ res (fs (nextID (clientOnce_Do initClient σ)).2) !! nextid (fs σ)
            = Some (length (heap σ))
          ∧ delivered (trace (nextID (clientOnce_Do initClient σ)).2)
            = delivered (trace σ)).
  { unfold nextID, make_chan. cbn [fs wire nextid res trace heap fst snd].
    rewrite Hwi, Hn, Hh, Ht. split; [done|]. split; [done|].
    split; [apply lookup_insert_eq|done]. }
  destruct c; cbn [request_of] in Hreq;
    try (destruct atime; [destruct mtime|]; try discriminate Hreq);
    try (destruct (decide (name = EmptyString)) as [|Hne] eqn:Hdec;
         [discriminate Hreq|]);
    injection Hreq as <-;
    unfold handle_call, Chmod, GetAttr, Mkdir, Open, OpenDir, Readlink, Rename,
      Rmdir, Symlink, Utimens, pbTime, deref, Mknod, Unlink, Truncate, file_Flush,
      file_Read, file_Truncate;
    try rewrite Hdec;
    unfold sendPacket, recv;
    cbn [mbind mret Relay_mbind Relay_ret Relay_bind];
    rewrite exec_SendPacket_failed by apply Hw;
    cbn [Relay_bind exec mbind mret Relay_mbind Relay_ret fst snd];
    eexists _, _; (split; [reflexivity|]); (split; [reflexivity|]);
    (split; [reflexivity|]); exact Hpost.
Qed.

Lemma write_failure_is_EIO_witness :
  ∃ r τ, exec {| write_ok := λ _, false; answer := λ _, [] |}
              (handle_call (CallOpen "a"%string 0)) newSys = (Returned r, τ)
         ∧ code_of r = EIO
         ∧ no_payload r = true
         ∧ wire τ = []
         ∧ nextid (fs τ) = 1
         ∧ res (fs τ) !! 0 = Some 0%nat
         ∧ delivered (trace τ) = [].
Proof.
  apply (write_failure_is_EIO {| write_ok := λ _, false; answer := λ _, [] |}
           newSys (CallOpen "a"%string 0) (OpenRequest (Some "a"%string) (Some 0)));
    reflexivity.
Defined.

Lemma call_relays_one_request_witness :
  relayed newSys (TruncateRequest None (Some 7) (Some 10))
    (exec (replying (λ _, MsgTruncateResponse (mkTruncateResponse None)))
          (handle_call (CallFileTruncate (mkFile 7 "f"%string 0) 10)) newSys).2.
Proof.
  apply (call_relays_one_request newSys _ (CallFileTruncate (mkFile 7 "f"%string 0) 10));
    reflexivity.
Defined.

(** *** After the read loop has returned *)

Lemma readFromClient_Exited inbound σ :
  loop σ = Exited → readFromClient inbound σ = σ.
Proof.
  revert σ. induction inbound as [|r inbound IH]; intros σ Hl; [done|].
  unfold readFromClient in *. cbn [foldl].
  assert (E : send (dispatch r σ) = σ).
  { unfold dispatch. rewrite Hl. unfold send. by rewrite Hl. }
  rewrite E. by apply IH.
Qed.

Lemma exec_SendPacket_Exited {A} (w : Peer) body (k : option chan → Relay A) σ :
  clientOnce (fs σ) = true → loop σ = Exited →
  write_ok w {| Header := {| ID := nextid (fs σ) |}; Body := body |} = true →
  ∃ τ, exec w (SendPacket body k) σ = exec w (k (Some (length (heap σ)))) τ
       ∧ chan_recv (length (heap σ)) τ = None
       ∧ loop τ = Exited
       ∧ delivered (trace τ) = delivered (trace σ).
Proof.
  intros Hc Hl Hw. cbn [exec]. unfold clientOnce_Do. rewrite Hc.
  unfold nextID, make_chan. cbn [nextid fs fst snd heap]. rewrite Hw.
  rewrite readFromClient_Exited by done.
  eexists. split; [reflexivity|]. unfold chan_recv, WritePacket. cbn [heap loop trace].
  rewrite lookup_app_r, Nat.sub_diag by lia. done.
Qed.

(** X3. Once the read loop has returned, a relaying call whose write
    still succeeds never returns: nothing is left to deliver to its
    channel, and the loop is not restarted. *)
Theorem calls_hang_after_loop_exit (w : Peer) (σ : Sys) (c : Call) (body : Message) :
  request_of c = Some body →
  clientOnce (fs σ) = true → loop σ = Exited →
  (∀ p, write_ok w p = true) →
  ∃ τ, exec w (handle_call c) σ = (Hung, τ)
       ∧ loop τ = Exited
       ∧ delivered (trace τ) = delivered (trace σ).
Proof.
  intros Hreq Hc Hl Hw.
  destruct c; cbn [request_of] in Hreq;
    try (destruct atime; [destruct mtime|]; try discriminate Hreq);
    try (destruct (decide (name = EmptyString)) as [|Hne] eqn:Hdec;
         [discriminate Hreq|]);
    injection Hreq as <-;
    unfold handle_call, Chmod, GetAttr, Mkdir, Open, OpenDir, Readlink, Rename,
      Rmdir, Symlink, Utimens, pbTime, deref, Mknod, Unlink, Truncate, file_Flush,
      file_Read, file_Truncate;
    try rewrite Hdec;
    unfold sendPacket, recv;
    cbn [mbind mret Relay_mbind Relay_ret Relay_bind];
    lazymatch goal with
    | |- context [exec w (SendPacket ?body ?k) σ] =>
        destruct (exec_SendPacket_Exited w body k σ Hc Hl (Hw _))
          as (τ & -> & Hrecv & Hl' & Hd)
    end;
    cbn [Relay_bind exec mbind mret Relay_mbind Relay_ret];
    rewrite Hrecv; by exists τ.
Qed.

Lemma calls_hang_after_loop_exit_witness :
  ∃ τ, exec (replying (λ _, MsgUnlinkResponse (mkUnlinkResponse None)))
            (handle_call (CallUnlink "a"%string))
            (run newSys [EvInit; EvDispatch None]) = (Hung, τ)
       ∧ loop τ = Exited
       ∧ delivered (trace τ) = [].
Proof.
  apply (calls_hang_after_loop_exit _ (run newSys [EvInit; EvDispatch None])
           (CallUnlink "a"%string) (UnlinkRequest (Some "a"%string)));
    reflexivity.
Defined.

(** *** An answer under an id that is not registered *)

Lemma exec_SendPacket_desync {A} id' m body (k : option chan → Relay A) σ :
  ready σ = true →
  id' ≠ nextid (fs σ) → res (fs σ) !! id' = None →
  ∃ τ, exec (answering_under id' m) (SendPacket body k) σ
       = exec (answering_under id' m) (k (Some (length (heap σ)))) τ
       ∧ chan_recv (length (heap σ)) τ = None
       ∧ loop τ = Exited
       ∧ res (fs τ) !! nextid (fs σ) = Some (length (heap σ))
       ∧ trace τ = Bogus id' :: Issued (nextid (fs σ)) (length (heap σ)) :: trace σ.
Proof.
  intros Hr Hne Hnone. pose proof (loop_clientOnce_Do σ Hr) as Hl.
  destruct (clientOnce_Do_fields σ) as (Hh & Hw & Ht & Hn & Hres & Hc).
  cbn [exec].
  revert Hl Hh Hw Ht Hn Hres Hc. generalize (clientOnce_Do initClient σ).
  intros τ Hl Hh Hw Ht Hn Hres Hc.
  unfold nextID, make_chan, answering_under, readFromClient, WritePacket,
    dispatch, send, chan_recv.
  simpl. rewrite Hl. simpl. rewrite Hn, Hres, Hh, Ht.
  rewrite lookup_insert_ne by done. rewrite Hnone. simpl.
  eexists. split; [reflexivity|]. simpl.
  rewrite lookup_app_r, Nat.sub_diag by lia. simpl.
  by rewrite lookup_insert_eq.
Qed.

(** X4. If the peer answers a request under an id that is not registered,
    the read loop returns without delivering, the call that is waiting
    never returns and its own id stays registered. *)
Theorem unregistered_answer_hangs_the_call (σ : Sys) (c : Call) (body m : Message)
    (id' : Z) :
  request_of c = Some body →
  ready σ = true →
  id' ≠ nextid (fs σ) → res (fs σ) !! id' = None →
  ∃ τ, exec (answering_under id' m) (handle_call c) σ = (Hung, τ)
       ∧ loop τ = Exited
       ∧ res (fs τ) !! nextid (fs σ) = Some (length (heap σ))
       ∧ delivered (trace τ) = delivered (trace σ).
Proof.
  intros Hreq Hr Hne Hnone.
  destruct c; cbn [request_of] in Hreq;
    try (destruct atime; [destruct mtime|]; try discriminate Hreq);
    try (destruct (decide (name = EmptyString)) as [|Hne'] eqn:Hdec;
         [discriminate Hreq|]);
    injection Hreq as <-;
    unfold handle_call, Chmod, GetAttr, Mkdir, Open, OpenDir, Readlink, Rename,
      Rmdir, Symlink, Utimens, pbTime, deref, Mknod, Unlink, Truncate, file_Flush,
      file_Read, file_Truncate;
    try rewrite Hdec;
    unfold sendPacket, recv;
    cbn [mbind mret Relay_mbind Relay_ret Relay_bind];
    lazymatch goal with
    | |- context [exec _ (SendPacket ?body ?k) σ] =>
        destruct (exec_SendPacket_desync id' m body k σ Hr Hne Hnone)
          as (τ & -> & Hrecv & Hl' & Hreg & Htr)
    end;
    cbn [Relay_bind exec mbind mret Relay_mbind Relay_ret];
    rewrite Hrecv; exists τ; (split; [reflexivity|]); (split; [done|]);
    (split; [done|]); by rewrite Htr.
Qed.

Lemma unregistered_answer_hangs_the_call_witness :
  ∃ τ, exec (answering_under 5 (MsgChmodResponse (mkChmodResponse None)))
            (handle_call (CallChmod "a"%string 420)) newSys = (Hung, τ)
       ∧ loop τ = Exited
       ∧ res (fs τ) !! 0 = Some 0%nat
       ∧ delivered (trace τ) = [].
Proof.
  apply (unregistered_answer_hangs_the_call newSys (CallChmod "a"%string 420)
           (ChmodRequest (Some "a"%string) (Some 420))
           (MsgChmodResponse (mkChmodResponse None)) 5);
    [reflexivity|reflexivity|discriminate|reflexivity].
Defined.

(** ** What the handlers make of a well-kinded response *)

(** X5. The eleven operations that return a status alone (Chmod, Mkdir,
    Rmdir, Rename, Symlink, Utimens, Mknod, Unlink, Truncate by path and by
    handle, Flush), answered with the response kind they expect, return
    fuseError of its Error record, which is OK exactly when there is no
    Error record. *)
Theorem status_only_calls (σ : Sys) (c : Call) (m : Message) (err : option Error) :
  ready σ = true →
  answers c m = true →
  Err_of m = Some err →
  (exec (replying (λ _, m)) (handle_call c) σ).1
  = Returned (StatusResult (fuseError err))
  ∧ (fuseError err = OK ↔ err = None).
Proof.
  intros Hr Ha He. split.
  - destruct c; try discriminate Ha;
      try (destruct atime; [destruct mtime|]; try discriminate Ha);
      destruct m; try discriminate Ha;
      injection He as <-;
      unfold handle_call, Chmod, Mkdir, Rename, Rmdir, Symlink, Utimens, pbTime,
        deref, Mknod, Unlink, Truncate, file_Flush, file_Truncate;
      by roundtrip_state Hr.
  - destruct err as [e|]; [|done]. split; [|done].
    cbn [fuseError]. by destruct (GetNotExist e), (GetReadOnly e), (GetNotDir e).
Qed.

Lemma status_only_calls_witness :
  (exec (replying (λ _, MsgRenameResponse
                          (mkRenameResponse (Some (mkError None (Some true) None)))))
        (handle_call (CallRename "a"%string "b"%string)) newSys).1
  = Returned (StatusResult EROFS).
Proof.
  apply (status_only_calls newSys (CallRename "a"%string "b"%string)
           (MsgRenameResponse (mkRenameResponse (Some (mkError None (Some true) None))))
           (Some (mkError None (Some true) None)));
    reflexivity.
Defined.

(** X6. GetAttr on a non-root path, answered with an attribute and no
    Error record, returns OK with the size and mode of the answer (0 for an
    absent field), Nlink 1, Blksize 1024, and Blocks the size divided by
    1024 rounded down. *)
Theorem GetAttr_success (σ : Sys) (name : string) (size mode : option Z) :
  ready σ = true → name ≠ EmptyString →
  ∃ a, (exec (replying (λ _, MsgAttrResponse
                               (mkAttrResponse None (Some (mkAttr size mode)))))
             (GetAttr name) σ).1 = Returned (Some a, OK)
       ∧ Size a = default 0 size
       ∧ Mode a = default 0 mode
       ∧ Nlink a = 1 ∧ Blksize a = 1024
       ∧ (0 ≤ Size a → 1024 * Blocks a ≤ Size a < 1024 * (Blocks a + 1)).
Proof.
  intros Hr Hn. unfold GetAttr. destruct (decide (name = EmptyString)); [done|].
  roundtrip_state Hr. eexists. split; [reflexivity|].
  cbn [Size Mode Nlink Blksize Blocks Attr_GetSize Attr_GetMode Attr_Size Attr_Mode].
  split; [done|]. split; [done|]. split; [done|]. split; [done|].
  intros _.
  pose proof (Z.div_mod (default 0 size) 1024 ltac:(lia)).
  pose proof (Z.mod_pos_bound (default 0 size) 1024 ltac:(lia)).
  unfold Attr_GetSize. cbn [Attr_Size]. lia.
Qed.

Lemma GetAttr_success_witness :
  ∃ a, (exec (replying (λ _, MsgAttrResponse
                               (mkAttrResponse None (Some (mkAttr (Some 1500) (Some 420))))))
             (GetAttr "a"%string) newSys).1 = Returned (Some a, OK)
       ∧ Size a = 1500
       ∧ Mode a = 420
       ∧ Nlink a = 1 ∧ Blksize a = 1024
       ∧ (0 ≤ Size a → 1024 * Blocks a ≤ Size a < 1024 * (Blocks a + 1)).
Proof.
  apply (GetAttr_success newSys "a"%string (Some 1500) (Some 420));
    [reflexivity|discriminate].
Defined.

(** X7. OpenDir returns one entry per entry of the answer, in the same
    order, each with the name and mode of the answer (the empty name and 0
    for absent fields). *)
Theorem OpenDir_keeps_the_order (σ : Sys) (name : string) (res : ReaddirResponse) :
  ready σ = true →
  ∃ stream, (exec (replying (λ _, MsgReaddirResponse res)) (OpenDir name) σ).1
            = Returned (stream, fuseError (ReaddirResponse_Err res))
    ∧ length stream = length (ReaddirResponse_Entry res)
    ∧ ∀ (i : nat) ent, ReaddirResponse_Entry res !! i = Some ent →
        stream !! i = Some {| Name := default EmptyString (DirEntry_Name ent);
                              EntryMode := default 0 (DirEntry_Mode ent) |}.
Proof.
  intros Hr. unfold OpenDir. roundtrip_state Hr.
  eexists. split; [reflexivity|]. split; [by rewrite length_fmap|].
  intros i ent Hi. by rewrite list_lookup_fmap, Hi.
Qed.

Lemma OpenDir_keeps_the_order_witness :
  ∃ stream,
    (exec (replying (λ _, MsgReaddirResponse
             (mkReaddirResponse None
                [mkDirEntry (Some "a"%string) (Some 420);
                 mkDirEntry (Some "b"%string) (Some 493)])))
          (OpenDir "d"%string) newSys).1
    = Returned (stream, OK)
    ∧ length stream = 2%nat
    ∧ ∀ (i : nat) ent,
        [mkDirEntry (Some "a"%string) (Some 420);
         mkDirEntry (Some "b"%string) (Some 493)] !! i = Some ent →
        stream !! i = Some {| Name := default EmptyString (DirEntry_Name ent);
                              EntryMode := default 0 (DirEntry_Mode ent) |}.
Proof.
  apply (OpenDir_keeps_the_order newSys "d"%string
           (mkReaddirResponse None
              [mkDirEntry (Some "a"%string) (Some 420);
               mkDirEntry (Some "b"%string) (Some 493)])).
  reflexivity.
Defined.

(** X8. Open, answered with a nonzero handle and no Error record, returns
    OK and a file that holds this handle and the name and flags of the
    call, after one round trip for the OpenRequest. *)
Theorem Open_success (σ : Sys) (name : string) (flags h : Z) :
  ready σ = true → h ≠ 0 →
  ∃ τ, exec (replying (λ _, MsgOpenResponse (mkOpenResponse None (Some h))))
            (Open name flags) σ
       = (Returned (Some {| handle := h; origName := name; origFlags := flags |}, OK), τ)
       ∧ relayed σ (OpenRequest (Some name) (Some flags)) τ.
Proof.
  intros Hr Hh. unfold Open. roundtrip_state Hr.
  cbn [asOpenResponse OpenResponse_Err handle]. unfold OpenResponse_GetHandle.
  cbn [OpenResponse_Handle default from_option id].
  destruct (decide (h = 0)); [done|]. by exists τ.
Qed.

Lemma Open_success_witness :
  ∃ τ, exec (replying (λ _, MsgOpenResponse (mkOpenResponse None (Some 7))))
            (Open "a"%string 2) newSys
       = (Returned (Some {| handle := 7; origName := "a"%string; origFlags := 2 |}, OK), τ)
       ∧ relayed newSys (OpenRequest (Some "a"%string) (Some 2)) τ.
Proof.
  apply (Open_success newSys "a"%string 2 7); [reflexivity|discriminate].
Defined.

(** X9. Readlink returns the target of the answer (the empty string when
    absent) with OK when there is no Error record, and otherwise the empty
    string with the mapped status, which is never OK. *)
Theorem Readlink_target (σ : Sys) (name : string) (res : ReadlinkResponse) :
  ready σ = true →
  (exec (replying (λ _, MsgReadlinkResponse res)) (Readlink name) σ).1
  = Returned (match ReadlinkResponse_Err res with
              | None => (default EmptyString (ReadlinkResponse_Target res), OK)
              | Some e => (EmptyString, fuseError (Some e))
              end)
  ∧ (∀ e, ReadlinkResponse_Err res = Some e → fuseError (Some e) ≠ OK).
Proof.
  intros Hr. split.
  - unfold Readlink. roundtrip_state Hr. cbn [asReadlinkResponse].
    by destruct (ReadlinkResponse_Err res).
  - intros e _. cbn [fuseError].
    by destruct (GetNotExist e), (GetReadOnly e), (GetNotDir e).
Qed.

Lemma Readlink_target_witness :
  (exec (replying (λ _, MsgReadlinkResponse
                          (mkReadlinkResponse None (Some "t"%string))))
        (Readlink "l"%string) newSys).1
  = Returned ("t"%string, OK).
Proof.
  apply (Readlink_target newSys "l"%string (mkReadlinkResponse None (Some "t"%string))).
  reflexivity.
Defined.

(** *** The times of Utimens *)

Lemma int32_in_range z : -2147483648 ≤ z < 2147483648 → int32 z = z.
Proof. intros H. unfold int32. rewrite Z.mod_small by lia. lia. Qed.

(** X10. Utimens with two non-nil times whose nanoseconds are in
    [0, 10^9) sends one UtimeRequest carrying both times, each as the pair
    of the Unix seconds and the nanoseconds, unchanged by the conversion to
    int32. *)
Theorem Utimens_sends_both_times (σ : Sys) (reply : Message → Message)
    (name : string) (atime mtime : GoTime) :
  ready σ = true →
  0 ≤ Nanosecond atime < 1000000000 →
  0 ≤ Nanosecond mtime < 1000000000 →
  relayed σ
    (UtimeRequest (Some name)
       (Some {| Sec := Some (Unix atime); Nsec := Some (Nanosecond atime) |})
       (Some {| Sec := Some (Unix mtime); Nsec := Some (Nanosecond mtime) |}))
    (exec (replying reply) (Utimens name (Some atime) (Some mtime)) σ).2.
Proof.
  intros Hr Ha Hm.
  unfold Utimens, pbTime, deref. roundtrip_state Hr.
  rewrite !int32_in_range in Hrel by lia.
  crunch; exact Hrel.
Qed.

Lemma Utimens_sends_both_times_witness :
  relayed newSys
    (UtimeRequest (Some "f"%string)
       (Some {| Sec := Some 10; Nsec := Some 999999999 |})
       (Some {| Sec := Some (-1); Nsec := Some 0 |}))
    (exec (replying (λ _, MsgUtimeResponse (mkUtimeResponse None)))
          (Utimens "f"%string (Some (mkGoTime 10 999999999)) (Some (mkGoTime (-1) 0)))
          newSys).2.
Proof.
  apply (Utimens_sends_both_times newSys _ "f"%string
           (mkGoTime 10 999999999) (mkGoTime (-1) 0)); [reflexivity|simpl; lia|simpl; lia].
Defined.

(** *** Open, then a call on the file *)

(** X11. The handle the peer returned for Open is the one that a following
    Read, Truncate or Flush on the returned file sends; the second request
    goes out under the next id, and Read sends its offset and the length of
    its buffer as uint64. *)
Theorem handle_of_Open_is_used (σ : Sys) (reply : Message → Message)
    (name : string) (flags h : Z) (dest : list Byte.byte) (off size : Z) :
  ready σ = true →
  reply (OpenRequest (Some name) (Some flags))
  = MsgOpenResponse (mkOpenResponse None (Some h)) →
  h ≠ 0 →
  ∃ f τ, exec (replying reply) (Open name flags) σ = (Returned (Some f, OK), τ)
    ∧ wire (exec (replying reply) (file_Read f dest off) τ).2
      = wire σ ++
        [{| Header := {| ID := nextid (fs σ) |};
            Body := OpenRequest (Some name) (Some flags) |};
         {| Header := {| ID := uint64 (nextid (fs σ) + 1) |};
            Body := ReadRequest (Some h) (Some (uint64 off))
                      (Some (uint64 (Z.of_nat (length dest)))) |}]
    ∧ wire (exec (replying reply) (file_Truncate f size) τ).2
      = wire σ ++
        [{| Header := {| ID := nextid (fs σ) |};
            Body := OpenRequest (Some name) (Some flags) |};
         {| Header := {| ID := uint64 (nextid (fs σ) + 1) |};
            Body := TruncateRequest None (Some h) (Some size) |}]
    ∧ wire (exec (replying reply) (file_Flush f) τ).2
      = wire σ ++
        [{| Header := {| ID := nextid (fs σ) |};
            Body := OpenRequest (Some name) (Some flags) |};
         {| Header := {| ID := uint64 (nextid (fs σ) + 1) |};
            Body := CloseRequest (Some h) |}].
Proof.
  intros Hr Hrep Hh.
  assert (Hopen : ∃ τ, exec (replying reply) (Open name flags) σ
            = (Returned (Some {| handle := h; origName := name; origFlags := flags |}, OK), τ)
            ∧ relayed σ (OpenRequest (Some name) (Some flags)) τ).
  { unfold Open. roundtrip_state Hr. rewrite Hrep.
    cbn [asOpenResponse OpenResponse_Err handle]. unfold OpenResponse_GetHandle.
    cbn [OpenResponse_Handle default from_option id].
    destruct (decide (h = 0)); [done|]. by exists τ. }
  destruct Hopen as (τ & Hex & Hw & Hn & _ & Hr').
  eexists _, τ. split; [exact Hex|].
  split; [|split].
  - unfold file_Read. roundtrip_state Hr'. crunch;
      destruct Hrel as (-> & _); cbn [handle]; by rewrite Hw, Hn, <- app_assoc.
  - unfold file_Truncate. roundtrip_state Hr'. crunch;
      destruct Hrel as (-> & _); cbn [handle]; by rewrite Hw, Hn, <- app_assoc.
  - unfold file_Flush. roundtrip_state Hr'. crunch;
      destruct Hrel as (-> & _); cbn [handle]; by rewrite Hw, Hn, <- app_assoc.
Qed.

Lemma handle_of_Open_is_used_witness :
  ∃ f τ, exec (replying (λ _, MsgOpenResponse (mkOpenResponse None (Some 7))))
              (Open "a"%string 2) newSys = (Returned (Some f, OK), τ)
    ∧ wire (exec (replying (λ _, MsgOpenResponse (mkOpenResponse None (Some 7))))
                 (file_Read f [Byte.x00; Byte.x00] (-1)) τ).2
      = [{| Header := {| ID := 0 |}; Body := OpenRequest (Some "a"%string) (Some 2) |};
         {| Header := {| ID := 1 |};
            Body := ReadRequest (Some 7) (Some 18446744073709551615) (Some 2) |}].
Proof.
  destruct (handle_of_Open_is_used newSys
              (λ _, MsgOpenResponse (mkOpenResponse None (Some 7)))
              "a"%string 2 7 [Byte.x00; Byte.x00] (-1) 0)
    as (f & τ & H1 & H2 & _); [reflexivity|reflexivity|lia|].
  exists f, τ. split; [exact H1|exact H2].
Defined.

(** ** More on the interleavings *)

(** *** The client is initialised once *)

Lemma elem_of_snoc {A} (l : list A) (x y : A) : x ∈ l ++ [y] ↔ x ∈ l ∨ x = y.
Proof. rewrite elem_of_app, list_elem_of_singleton. done. Qed.

Lemma run_snoc σ evs e : run σ (evs ++ [e]) = step (run σ evs) e.
Proof. by rewrite run_app. Qed.

Lemma clientOnce_step σ e :
  clientOnce (fs (step σ e)) = clientOnce (fs σ) || is_Init e.
Proof.
  destruct e as [| |r| |c]; simpl.
  - unfold clientOnce_Do. by destruct (clientOnce (fs σ)) eqn:E.
  - by rewrite orb_false_r.
  - rewrite orb_false_r. unfold dispatch. destruct (loop σ); try done.
    destruct r as [p|]; [|done]. by destruct (res (fs σ) !! ID (Header p)).
  - rewrite orb_false_r. unfold send. destruct (loop σ); try done.
    by destruct (heap σ !! resc) as [[m|]|].
  - rewrite orb_false_r. unfold chan_recv. by destruct (heap σ !! c) as [[m|]|].
Qed.

Lemma not_started_step σ e :
  clientOnce (fs σ) = false → loop σ = NotStarted → e ≠ EvInit →
  clientOnce (fs (step σ e)) = false ∧ loop (step σ e) = NotStarted
  ∧ delivered (trace (step σ e)) = delivered (trace σ).
Proof.
  intros Hc Hl He. destruct e as [| |r| |c]; simpl; [done|done|..].
  - unfold dispatch. by rewrite Hl.
  - unfold send. by rewrite Hl.
  - unfold chan_recv. by destruct (heap σ !! c) as [[m|]|].
Qed.

Lemma started_step σ e : loop σ ≠ NotStarted → loop (step σ e) ≠ NotStarted.
Proof.
  destruct e as [| |r| |c]; simpl; try done.
  - unfold clientOnce_Do. by destruct (clientOnce (fs σ)).
  - unfold dispatch. destruct (loop σ) eqn:E; rewrite ?E; try done. intros _.
    destruct r as [p|]; [|done]. by destruct (res (fs σ) !! ID (Header p)).
  - unfold send. destruct (loop σ) eqn:E; rewrite ?E; try done. intros _.
    destruct (heap σ !! resc) as [[m|]|]; simpl; by rewrite ?E.
  - unfold chan_recv. by destruct (heap σ !! c) as [[m|]|].
Qed.

Lemma Init_dec (evs : list Event) : EvInit ∈ evs ∨ EvInit ∉ evs.
Proof.
  induction evs as [|e evs [IH|IH]]; [right; by intros ?%elem_of_nil|left; by right|].
  destruct e; try (right; intros [?|?]%elem_of_cons; done). left. by left.
Qed.

Lemma before_Init evs :
  EvInit ∉ evs →
  clientOnce (fs (run newSys evs)) = false ∧ loop (run newSys evs) = NotStarted
  ∧ delivered (trace (run newSys evs)) = [].
Proof.
  induction evs as [|e evs IH] using rev_ind; [done|].
  rewrite elem_of_snoc, run_snoc. intros Hn.
  destruct IH as (Hc & Hl & Hd); [tauto|].
  destruct (not_started_step _ e Hc Hl) as (? & ? & Hd'); [intros ->; tauto|].
  by rewrite Hd'.
Qed.

Lemma after_Init evs :
  EvInit ∈ evs →
  clientOnce (fs (run newSys evs)) = true ∧ loop (run newSys evs) ≠ NotStarted.
Proof.
  induction evs as [|e evs IH] using rev_ind; [by intros ?%elem_of_nil|].
  rewrite elem_of_snoc, run_snoc. intros Hin.
  destruct (Init_dec evs) as [Hi|Hi].
  - destruct (IH Hi) as [Hc Hl]. split; [|by apply started_step].
    by rewrite clientOnce_step, Hc.
  - destruct Hin as [?|Hin]; [done|]. subst e.
    destruct (before_Init evs Hi) as (Hc & Hl & _).
    simpl. unfold clientOnce_Do. by rewrite Hc.
Qed.

(** X12. In every interleaving the client is initialised by the first
    clientOnce.Do and by nothing else: before it the read loop is not
    started and nothing is delivered; after it the loop is started and
    a further clientOnce.Do changes nothing. *)
Theorem client_initialised_once (evs : list Event) :
  let σ := run newSys evs in
  (clientOnce (fs σ) = true ↔ EvInit ∈ evs)
  ∧ (loop σ = NotStarted ↔ EvInit ∉ evs)
  ∧ (EvInit ∉ evs → delivered (trace σ) = [])
  ∧ (EvInit ∈ evs → step σ EvInit = σ).
Proof.
  cbn zeta. destruct (Init_dec evs) as [Hi|Hi].
  - destruct (after_Init evs Hi) as [Hc Hl].
    split; [done|]. split; [done|]. split; [done|].
    intros _. simpl. unfold clientOnce_Do. by rewrite Hc.
  - destruct (before_Init evs Hi) as (Hc & Hl & Hd).
    split; [by rewrite Hc|]. done.
Qed.

Lemma client_initialised_once_witness :
  step (run newSys [EvNextID; EvInit; EvNextID]) EvInit
  = run newSys [EvNextID; EvInit; EvNextID].
Proof.
  apply (client_initialised_once [EvNextID; EvInit; EvNextID]).
  right. left.
Defined.

(** *** Waiters after the read loop has returned *)

Lemma empty_slot_step σ e c :
  clientOnce (fs σ) = true → loop σ = Exited → heap σ !! c = Some None →
  heap (step σ e) !! c = Some None.
Proof.
  intros Hc Hl Hh. destruct e as [| |r| |c']; simpl.
  - unfold clientOnce_Do. by rewrite Hc.
  - rewrite lookup_app_l; [done|]. by eapply lookup_lt_Some.
  - unfold dispatch. by rewrite Hl.
  - unfold send. by rewrite Hl.
  - unfold chan_recv. destruct (heap σ !! c') as [[m|]|] eqn:E; simpl; try done.
    destruct (decide (c' = c)) as [->|Hne]; [congruence|].
    by rewrite list_lookup_insert_ne.
Qed.

Lemma empty_slot_run σ evs c :
  clientOnce (fs σ) = true → loop σ = Exited → heap σ !! c = Some None →
  heap (run σ evs) !! c = Some None.
Proof.
  revert σ. induction evs as [|e evs IH]; intros σ Hc Hl Hh; [done|].
  simpl. destruct (exited_step σ e Hc Hl) as (Hc' & Hl' & _).
  apply IH; [done|done|]. by apply empty_slot_step.
Qed.

(** X13. When ReadPacket fails, the read loop returns and leaves the
    registry as it is; from then on, in every interleaving, the loop stays
    returned, nothing is delivered, and no caller that was registered ever
    receives on its channel. *)
Theorem read_error_orphans_the_waiters (evs : list Event) :
  let σ := run newSys evs in
  loop σ = Reading →
  loop (dispatch None σ) = Exited
  ∧ res (fs (dispatch None σ)) = res (fs σ)
  ∧ ∀ evs',
      loop (run (dispatch None σ) evs') = Exited
      ∧ delivered (trace (run (dispatch None σ) evs')) = delivered (trace σ)
      ∧ ∀ id c, res (fs σ) !! id = Some c →
                chan_recv c (run (dispatch None σ) evs') = None.
Proof.
  intros σ Hl. pose proof (inv_reachable evs) as I. fold σ in I.
  assert (Hc : clientOnce (fs σ) = true) by (apply (inv_once σ I); by rewrite Hl).
  assert (E : dispatch None σ
              = {| fs := fs σ; heap := heap σ; loop := Exited; wire := wire σ;
                   trace := ReadError :: trace σ |}).
  { unfold dispatch. by rewrite Hl. }
  rewrite E. split; [done|]. split; [done|]. intros evs'.
  match goal with |- context [run ?τ evs'] =>
    destruct (exited_run τ evs' Hc eq_refl) as [H1 H2];
    pose proof (λ c, empty_slot_run τ evs' c Hc eq_refl) as H3 end.
  split; [done|]. split; [by rewrite H2|].
  intros id c Hreg. unfold chan_recv. rewrite H3; [done|]. cbn [heap].
  destruct (inv_res σ I _ _ Hreg) as (Ha & Hnd & _).
  unfold allocated in Ha. destruct (heap σ !! c) as [[m|]|] eqn:Eh; [|done|].
  - exfalso. apply Hnd. by eapply inv_full.
  - apply lookup_ge_None in Eh. lia.
Qed.

Lemma read_error_orphans_the_waiters_witness :
  let σ := run newSys [EvInit; EvNextID] in
  chan_recv 0%nat (run (dispatch None σ)
                       [EvDispatch (Some {| Header := {| ID := 0 |};
                                            Body := MsgChmodResponse (mkChmodResponse None) |});
                        EvSend]) = None.
Proof.
  intros σ.
  destruct (read_error_orphans_the_waiters [EvInit; EvNextID] eq_refl) as (_ & _ & H).
  destruct (H [EvDispatch (Some {| Header := {| ID := 0 |};
                                   Body := MsgChmodResponse (mkChmodResponse None) |});
               EvSend]) as (_ & _ & H').
  apply (H' 0 0%nat). reflexivity.
Defined.

(** *** Every caller gets the answer to its own request *)

(** X14. In every reachable state with the loop reading, a packet whose id
    is registered is delivered to the channel registered under that id: the
    receive on that channel yields the body of the packet and empties the
    slot, the entry is gone from the registry, and no other channel
    changes. *)
Theorem matched_packet_reaches_its_caller (evs : list Event) (p : Packet) (c : nat) :
  let σ := run newSys evs in
  loop σ = Reading →
  res (fs σ) !! ID (Header p) = Some c →
  ∃ τ, chan_recv c (send (dispatch (Some p) σ)) = Some (Body p, τ)
       ∧ chan_recv c τ = None
       ∧ loop τ = Reading
       ∧ res (fs τ) = delete (ID (Header p)) (res (fs σ))
       ∧ ∀ c', c' ≠ c → heap τ !! c' = heap σ !! c'.
Proof.
  intros σ Hl Hc. pose proof (inv_reachable evs) as I. fold σ in I.
  destruct (inv_res σ I _ _ Hc) as (Ha & _). unfold allocated in Ha.
  pose proof (inv_dispatch (Some p) σ I) as I'.
  assert (E : dispatch (Some p) σ
              = {| fs := forgetRequestLocked (ID (Header p)) (fs σ); heap := heap σ;
                   loop := Sending (ID (Header p)) c (Body p); wire := wire σ;
                   trace := trace σ |}).
  { unfold dispatch. by rewrite Hl, Hc. }
  pose proof (send_never_blocks _ _ _ _ I' (f_equal loop E)) as Hs.
  rewrite E in Hs |- *. cbn [heap] in Hs.
  unfold send. cbn [loop heap]. rewrite Hs. unfold chan_recv. cbn [heap].
  rewrite list_lookup_insert_eq by done.
  eexists. split; [reflexivity|]. cbn [heap loop fs res forgetRequestLocked].
  rewrite list_lookup_insert_eq by (by rewrite length_insert).
  split; [done|]. split; [done|]. split; [done|].
  intros c' Hne. by rewrite !list_lookup_insert_ne.
Qed.

Lemma matched_packet_reaches_its_caller_witness :
  let m := MsgUnlinkResponse (mkUnlinkResponse None) in
  let σ := run newSys [EvInit; EvNextID; EvNextID] in
  ∃ τ, chan_recv 1%nat (send (dispatch (Some {| Header := {| ID := 1 |}; Body := m |}) σ))
       = Some (m, τ)
       ∧ chan_recv 1%nat τ = None
       ∧ loop τ = Reading
       ∧ res (fs τ) = delete 1 (res (fs σ))
       ∧ ∀ c', c' ≠ 1%nat → heap τ !! c' = heap σ !! c'.
Proof.
  intros m σ.
  apply (matched_packet_reaches_its_caller [EvInit; EvNextID; EvNextID]
           {| Header := {| ID := 1 |}; Body := m |} 1%nat); reflexivity.
Defined.

(** Where a delivered message comes from. *)
Lemma read_packets_snoc evs e :
  read_packets (evs ++ [e])
  = read_packets evs ++ match e with EvDispatch (Some p) => [p] | _ => [] end.
Proof.
  unfold read_packets. rewrite omap_app. f_equal.
  destruct e as [| |[p|]| |]; reflexivity.
Qed.

Lemma delivered_from_packets evs :
  (∀ id c b, (id, c, b) ∈ delivered (trace (run newSys evs)) →
             {| Header := {| ID := id |}; Body := b |} ∈ read_packets evs)
  ∧ (∀ id c b, loop (run newSys evs) = Sending id c b →
               {| Header := {| ID := id |}; Body := b |} ∈ read_packets evs).
Proof.
  induction evs as [|e evs [IH1 IH2]] using rev_ind.
  - split; [by intros ??? ?%elem_of_nil|done].
  - rewrite run_snoc, read_packets_snoc.
    set (σ := run newSys evs) in *.
    destruct e as [| |r| |c']; simpl.
    + rewrite app_nil_r. unfold clientOnce_Do.
      destruct (clientOnce (fs σ)); [by split|]. simpl. split; [done|]. done.
    + rewrite app_nil_r. by split.
    + assert (Hcases : loop σ = Reading ∨ dispatch r σ = σ).
      { unfold dispatch. destruct (loop σ); auto. }
      destruct Hcases as [El | ->];
        [|split; intros; apply elem_of_app; left; by eauto].
      unfold dispatch. rewrite El.
      destruct r as [p|]; [|rewrite app_nil_r; split; [done|by rewrite El in IH2]].
      destruct (res (fs σ) !! ID (Header p)) eqn:Er; simpl.
      * split.
        -- intros id c b Hin. apply elem_of_app. left. by eapply IH1.
        -- intros id c b [= <- <- <-]. apply elem_of_app. right.
           destruct p as [[i] b]. simpl. left.
      * split; [|done]. intros id c b Hin. apply elem_of_app. left. by eapply IH1.
    + rewrite app_nil_r. unfold send.
      destruct (loop σ) as [| |id0 c0 b0|] eqn:El; rewrite ?El;
        [by split|by split| |by split].
      destruct (heap σ !! c0) as [[m|]|]; simpl; rewrite ?El;
        [by split| |by split].
      split; [|done]. intros id' c b'. rewrite elem_of_cons.
      intros [[= -> -> ->]|Hin]; [by apply (IH2 _ _ _ eq_refl)|by eapply IH1].
    + rewrite app_nil_r. unfold chan_recv.
      destruct (heap σ !! c') as [[m|]|]; by split.
Qed.

(** X15. In every interleaving, a message delivered to a channel is the
    body of a packet the read loop read under the id the channel was issued
    with, and a channel receives one id and one body only. *)
Theorem delivery_has_a_source (evs : list Event) (id : Z) (c : nat) (b : Message) :
  (id, c, b) ∈ delivered (trace (run newSys evs)) →
  {| Header := {| ID := id |}; Body := b |} ∈ read_packets evs
  ∧ (id, c) ∈ issued (trace (run newSys evs))
  ∧ ∀ id' b', (id', c, b') ∈ delivered (trace (run newSys evs)) → id' = id ∧ b' = b.
Proof.
  intros Hin. pose proof (inv_reachable evs) as I.
  split; [by eapply (proj1 (delivered_from_packets evs))|].
  split; [by eapply inv_deliv|].
  intros id' b' Hin'.
  pose proof (inv_nodup _ I) as Hnd. unfold delivered_chans in Hnd.
  apply list_elem_of_lookup in Hin as [i Hi].
  apply list_elem_of_lookup in Hin' as [j Hj].
  assert (i = j) as ->.
  { eapply (NoDup_lookup _ i j c Hnd); by rewrite list_lookup_fmap, ?Hi, ?Hj. }
  rewrite Hi in Hj. by injection Hj as -> ->.
Qed.

Lemma delivery_has_a_source_witness :
  let m := MsgUnlinkResponse (mkUnlinkResponse None) in
  let evs := [EvInit; EvNextID;
              EvDispatch (Some {| Header := {| ID := 0 |}; Body := m |}); EvSend] in
  {| Header := {| ID := 0 |}; Body := m |} ∈ read_packets evs
  ∧ (0, 0%nat) ∈ issued (trace (run newSys evs)).
Proof.
  intros m evs.
  destruct (delivery_has_a_source evs 0 0%nat m) as (H1 & H2 & _); [left|].
  split; [exact H1|exact H2].
Defined.

(** ** Sessions against an arbitrary peer *)

Lemma inv_WritePacket p σ : inv σ → inv (WritePacket p σ).
Proof. intros [H1 H2 H3 H4 H5 H6 H7 H8]. by split. Qed.

Lemma counted_WritePacket p σ : counted σ → counted (WritePacket p σ).
Proof. intros [H1 H2 H3]. by split. Qed.

Lemma inv_readFromClient inbound σ : inv σ → inv (readFromClient inbound σ).
Proof.
  revert σ. induction inbound as [|r inbound IH]; intros σ I; [done|].
  unfold readFromClient in *. cbn [foldl]. by apply IH, inv_send, inv_dispatch.
Qed.

Lemma counted_readFromClient inbound σ : counted σ → counted (readFromClient inbound σ).
Proof.
  revert σ. induction inbound as [|r inbound IH]; intros σ I; [done|].
  unfold readFromClient in *. cbn [foldl]. apply IH.
  apply (counted_step _ EvSend), (counted_step _ (EvDispatch r)), I.
Qed.

Lemma counted_chan_recv c σ m σ' : counted σ → chan_recv c σ = Some (m, σ') → counted σ'.
Proof.
  intros I E. pose proof (counted_step σ (EvRecv c) I) as H.
  simpl in H. by rewrite E in H.
Qed.

Lemma exec_keeps_invariants {A} (w : Peer) (p : Relay A) :
  ∀ σ, inv σ → counted σ → inv (exec w p σ).2 ∧ counted (exec w p σ).2.
Proof.
  induction p as [a| |body k IH|c k IH]; intros σ I C; cbn [exec]; try done.
  - pose proof (inv_nextID _ (inv_clientOnce_Do σ I)) as I'.
    pose proof (counted_step _ EvNextID (counted_step _ EvInit C)) as C'.
    cbn [step] in C'.
    destruct (nextID (clientOnce_Do initClient σ)) as [[id resc] τ].
    cbn [snd] in I', C'.
    destruct (write_ok w _).
    + apply IH; [by apply inv_readFromClient, inv_WritePacket
                |by apply counted_readFromClient, counted_WritePacket].
    + by apply IH.
  - destruct (chan_recv c σ) as [[m τ]|] eqn:E; [|done].
    apply IH; [by eapply inv_chan_recv|by eapply counted_chan_recv].
Qed.

Lemma session_keeps_invariants w cs :
  ∀ σ, inv σ → counted σ → inv (session w cs σ) ∧ counted (session w cs σ).
Proof.
  induction cs as [|c cs IH]; intros σ I C; [done|].
  unfold session in *. cbn [foldl].
  destruct (exec_keeps_invariants w (handle_call c) σ I C) as [I' C'].
  by apply IH.
Qed.

(** X16. After any sequence of calls on a new instance, against any peer
    (failing writes, answers of any kind, under any id, repeated or
    missing): no channel has been delivered to twice, every delivery went
    to a channel under the id it was issued with, the ids issued are
    0, 1, 2, ... (modulo 2^64) in order with one channel each, and every
    entry still registered was issued and has an empty slot. *)
Theorem session_is_consistent (w : Peer) (cs : list Call) :
  let τ := session w cs newSys in
  let n := length (issued (trace τ)) in
  NoDup (delivered_chans (trace τ))
  ∧ (∀ id c b, (id, c, b) ∈ delivered (trace τ) → (id, c) ∈ issued (trace τ))
  ∧ issued (trace τ) = reverse ((λ i, (uint64 (Z.of_nat i), i)) <$> seq 0 n)
  ∧ nextid (fs τ) = uint64 (Z.of_nat n)
  ∧ length (heap τ) = n
  ∧ ∀ id c, res (fs τ) !! id = Some c →
      (id, c) ∈ issued (trace τ) ∧ heap τ !! c = Some None.
Proof.
  intros τ n.
  destruct (session_keeps_invariants w cs newSys inv_newSys counted_newSys) as [I C].
  fold τ in I, C.
  split; [by apply inv_nodup|]. split; [by apply inv_deliv|].
  split; [by apply counted_issued|]. split; [by apply counted_nextid|].
  split; [by apply counted_heap|].
  intros id c Hreg. destruct (inv_res τ I _ _ Hreg) as (Ha & Hnd & Hi).
  split; [done|]. unfold allocated in Ha.
  destruct (heap τ !! c) as [[m|]|] eqn:Eh; [|done|].
  - exfalso. apply Hnd. by eapply inv_full.
  - apply lookup_ge_None in Eh. lia.
Qed.

Lemma session_is_consistent_witness :
  let m := MsgUnlinkResponse (mkUnlinkResponse None) in
  let twice := {| write_ok := λ _, true;
                  answer := λ p, [Some {| Header := Header p; Body := m |};
                                  Some {| Header := Header p; Body := m |}] |} in
  let τ := session twice [CallUnlink "a"%string; CallUnlink "b"%string] newSys in
  NoDup (delivered_chans (trace τ))
  ∧ ∀ id c, res (fs τ) !! id = Some c →
      (id, c) ∈ issued (trace τ) ∧ heap τ !! c = Some None.
Proof.
  intros m twice τ.
  destruct (session_is_consistent twice [CallUnlink "a"%string; CallUnlink "b"%string])
    as (H1 & _ & _ & _ & _ & H2).
  split; [exact H1|exact H2].
Defined.
